(** * HobbyDB Funko Pop scraper: shallow embedding of [hobbydb_scraper.py]

    The development follows the source file top to bottom:
    - [PyStr]: the fragment of Python's [str] the scraper relies on
      ([lower], [in], [strip], [title], [str()] of JSON scalars);
    - the raw catalog item (a JSON object) and the CSV row;
    - the text heuristics [extract_stickers], [extract_exclusivity],
      [is_autographed], [extract_signer_name] and [process_item];
    - the page loop and the [while True] loop of [main], with the CSV file
      and the progress file as explicit state.

    Strings are [String.string]; characters are 8-bit, and the case and
    whitespace functions are the ASCII restrictions of Python's. *)

From Stdlib Require Import ZArith DecimalString Ascii String.
From stdpp Require Import gmap strings list.

Open Scope string_scope.
Open Scope list_scope.

(** ** Python strings *)

Module PyStr.

Definition is_upper (c : ascii) : bool :=
  let n := nat_of_ascii c in (65 <=? n)%nat && (n <=? 90)%nat.

Definition is_lower (c : ascii) : bool :=
  let n := nat_of_ascii c in (97 <=? n)%nat && (n <=? 122)%nat.

Definition to_lower (c : ascii) : ascii :=
  if is_upper c then ascii_of_nat (nat_of_ascii c + 32) else c.

Definition to_upper (c : ascii) : ascii :=
  if is_lower c then ascii_of_nat (nat_of_ascii c - 32) else c.

(** [s.lower()] *)
Fixpoint lower (s : string) : string :=
  match s with
  | EmptyString => EmptyString
  | String c s' => String (to_lower c) (lower s')
  end.

(** [sub in s] on two strings: [sub] occurs in [s] as a contiguous run. *)
Fixpoint contains (sub s : string) : bool :=
  String.prefix sub s ||
  match s with
  | EmptyString => false
  | String _ s' => contains sub s'
  end.

(** [str.isspace] on one character: tab, newline, vertical tab, form feed,
    carriage return, the four separators 0x1c-0x1f and the space. The
    regular-expression class [\s] is the same set. *)
Definition is_space (c : ascii) : bool :=
  let n := nat_of_ascii c in
  ((9 <=? n)%nat && (n <=? 13)%nat) || ((28 <=? n)%nat && (n <=? 32)%nat).

Fixpoint lstrip (s : string) : string :=
  match s with
  | EmptyString => EmptyString
  | String c s' => if is_space c then lstrip s' else s
  end.

Fixpoint rstrip (s : string) : string :=
  match s with
  | EmptyString => EmptyString
  | String c s' =>
      match rstrip s' with
      | EmptyString => if is_space c then EmptyString else String c EmptyString
      | r => String c r
      end
  end.

(** [s.strip()] *)
Definition strip (s : string) : string := rstrip (lstrip s).

(** [s.title()]: a cased letter is upper-cased when the character before
    it is not a cased letter and lower-cased otherwise. *)
Fixpoint title_from (prev_cased : bool) (s : string) : string :=
  match s with
  | EmptyString => EmptyString
  | String c s' =>
      if is_upper c || is_lower c
      then String (if prev_cased then to_lower c else to_upper c) (title_from true s')
      else String c (title_from false s')
  end.

Definition title (s : string) : string := title_from false s.

(** [sep.join(parts)] *)
Fixpoint join (sep : string) (parts : list string) : string :=
  match parts with
  | [] => EmptyString
  | [p] => p
  | p :: rest => p +:+ sep +:+ join sep rest
  end.

(** Truth value of a string: empty is false. *)
Definition nonempty (s : string) : bool :=
  match s with EmptyString => false | String _ _ => true end.

End PyStr.

(** ** JSON scalars and [str()] *)

(** The values the scraper reads identifiers from. Floats, arrays and
    objects in an identifier position are outside the model. *)
Inductive Value : Type :=
  | VNone
  | VBool (b : bool)
  | VInt (z : Z)
  | VStr (s : string).

(** [str(v)] *)
Definition py_str (v : Value) : string :=
  match v with
  | VNone => "None"
  | VBool true => "True"
  | VBool false => "False"
  | VInt z => NilZero.string_of_int (Z.to_int z)
  | VStr s => s
  end.

(** Truth value of [v] in a condition. *)
Definition truthy (v : Value) : bool :=
  match v with
  | VNone => false
  | VBool b => b
  | VInt z => negb (z =? 0)%Z
  | VStr s => PyStr.nonempty s
  end.

(** ** The raw catalog item

    A catalog item is the JSON object returned by the service. The
    identifier keys keep their JSON value ([None] when the key is missing);
    a text key holds the string, with the empty string standing for a missing
    key, which is what [item.get(key, '')] makes of it.
    [item_catalog_item_master_id] is [Some v] exactly when the item has a
    key [catalog_item] holding an object that has a key [master_id] with
    value [v]. *)
Record Item : Type := {
  item_id : option Value;
  item_hdbid : option Value;
  item_master_id : option Value;
  item_catalog_item_master_id : option Value;
  item_name : string;
  item_number : string;
  item_series : string;
  item_image_url : string;
  item_description : string;
  item_category : string;
  item_brand : string;
  item_upc : string;
  item_release_date : string;
  item_prod_status : string;
  item_estimated_value : string;
  item_estimated_value_currency : string;
  item_slug : string;
  item_ref_number : string;
  item_scale : string;
  item_aka : string;
  item_catalog_item_type_name : string
}.

(** The item with no key at all. *)
Definition empty_item : Item :=
  {| item_id := None; item_hdbid := None; item_master_id := None;
     item_catalog_item_master_id := None;
     item_name := ""; item_number := ""; item_series := "";
     item_image_url := ""; item_description := ""; item_category := "";
     item_brand := ""; item_upc := ""; item_release_date := "";
     item_prod_status := ""; item_estimated_value := "";
     item_estimated_value_currency := ""; item_slug := "";
     item_ref_number := ""; item_scale := ""; item_aka := "";
     item_catalog_item_type_name := "" |}.

(** [str(item.get('id', item.get('hdbid', '')))] *)
Definition get_hdbid (item : Item) : string :=
  match item_id item with
  | Some v => py_str v
  | None =>
      match item_hdbid item with
      | Some v => py_str v
      | None => ""
      end
  end.

(** ** [extract_master_variant_info] *)

Definition extract_master_variant_info (item : Item) : option string :=
  match item_master_id item with
  | Some v =>
      if truthy v then Some (py_str v)
      else option_map py_str (item_catalog_item_master_id item)
  | None => option_map py_str (item_catalog_item_master_id item)
  end.

(** ** [extract_stickers] *)

(** The [features] dictionary, in insertion order. *)
Definition features : list (string * string) :=
  [ ("chase", "Chase");
    ("glow", "Glow in the Dark");
    ("gitd", "Glow in the Dark");
    ("metallic", "Metallic");
    ("flocked", "Flocked");
    ("chrome", "Chrome");
    ("blacklight", "Blacklight");
    ("diamond", "Diamond");
    ("gold", "Gold");
    ("translucent", "Translucent");
    ("scented", "Scented") ].

Definition stickers_search_text (item : Item) : string :=
  PyStr.lower (item_name item) +:+ " " +:+
  PyStr.lower (item_prod_status item) +:+ " " +:+
  PyStr.lower (item_description item).

(** The [for keyword, label in features.items()] loop; [stickers] is the
    list built so far. *)
Fixpoint stickers_loop (search_text : string) (fs : list (string * string))
    (stickers : list string) : list string :=
  match fs with
  | [] => stickers
  | (keyword, label) :: fs' =>
      if PyStr.contains keyword search_text && negb (bool_decide (label ∈ stickers))
      then
        if String.eqb keyword "diamond" && PyStr.contains "diamond select" search_text
        then stickers_loop search_text fs' stickers
        else if String.eqb keyword "gold" && PyStr.contains "golden" search_text
        then stickers_loop search_text fs' stickers
        else stickers_loop search_text fs' (stickers ++ [label])
      else stickers_loop search_text fs' stickers
  end.

Definition extract_stickers (item : Item) : list string :=
  stickers_loop (stickers_search_text item) features [].

(** ** [extract_exclusivity] *)

Definition exclusivity_search_text (item : Item) : string :=
  PyStr.lower (item_name item) +:+ " " +:+
  PyStr.lower (item_series item) +:+ " " +:+
  PyStr.lower (item_description item).

(** The [retailers] dictionary, in insertion order. *)
Definition retailers : list (string * string) :=
  [ ("hot topic", "Hot Topic");
    ("gamestop", "GameStop");
    ("target", "Target");
    ("walmart", "Walmart");
    ("amazon", "Amazon");
    ("barnes & noble", "Barnes & Noble");
    ("barnes and noble", "Barnes & Noble");
    ("boxlunch", "BoxLunch");
    ("funko shop", "Funko Shop");
    ("entertainment earth", "Entertainment Earth");
    ("anime of the year", "Anime of the Year");
    ("supreme", "Supreme") ].

(** The [for pattern, label in retailers.items()] loop. *)
Fixpoint retailers_loop (search_text : string) (rs : list (string * string))
    : option string :=
  match rs with
  | [] => None
  | (pattern, label) :: rs' =>
      if PyStr.contains pattern search_text then Some label
      else retailers_loop search_text rs'
  end.

Definition extract_exclusivity (item : Item) : option string :=
  let search_text := exclusivity_search_text item in
  if PyStr.contains "sdcc" search_text
     || PyStr.contains "san diego comic con" search_text
  then if PyStr.contains "shared" search_text
       then Some "SDCC Shared" else Some "SDCC Exclusive"
  else if PyStr.contains "nycc" search_text
          || PyStr.contains "new york comic con" search_text
  then if PyStr.contains "shared" search_text
       then Some "NYCC Shared" else Some "NYCC Exclusive"
  else if PyStr.contains "eccc" search_text
          || PyStr.contains "emerald city comic con" search_text
  then if PyStr.contains "shared" search_text
       then Some "ECCC Shared" else Some "ECCC Exclusive"
  else if PyStr.contains "anime expo" search_text
          || PyStr.contains " ax " search_text
  then if PyStr.contains "shared" search_text
       then Some "Anime Expo Shared" else Some "Anime Expo Exclusive"
  else if PyStr.contains "ccxp" search_text
  then if PyStr.contains "shared" search_text
       then Some "CCXP Shared" else Some "CCXP Exclusive"
  else if PyStr.contains "limited edition supreme" search_text
  then Some "Limited Edition Supreme"
  else if PyStr.contains "limited edition" search_text
  then Some "Limited Edition"
  else retailers_loop search_text retailers.

(** ** [is_autographed] *)

Definition autograph_search_text (item : Item) : string :=
  PyStr.lower (item_name item) +:+ " " +:+
  PyStr.lower (item_description item) +:+ " " +:+
  PyStr.lower (item_slug item) +:+ " " +:+
  PyStr.lower (item_image_url item).

Definition autograph_keywords : list string :=
  [ "autographed"; "autograph"; "signed"; "signed by";
    "signature"; "certified autograph"; "coa" ].

Definition is_autographed (item : Item) : bool :=
  existsb (fun keyword => PyStr.contains keyword (autograph_search_text item))
          autograph_keywords.

(** ** The regular expressions of [extract_signer_name]

    The three patterns have one shape, [kw\s+by\s+([^,()]+)], for [kw] one
    of [signed], [autographed], [autograph]. [Re.search_by kw s] is
    [re.search] of that pattern in [s] with [re.IGNORECASE], returning
    [match.group(1)]. *)

Module Re.

(** Match the literal [p] at the head of [s], ignoring case. *)
Fixpoint literal (p s : string) : option string :=
  match p, s with
  | EmptyString, _ => Some s
  | String a p', String b s' =>
      if Ascii.eqb (PyStr.to_lower a) (PyStr.to_lower b) then literal p' s'
      else None
  | String _ _, EmptyString => None
  end.

(** The longest prefix of [s] whose characters satisfy [f], and the rest. *)
Fixpoint span (f : ascii -> bool) (s : string) : string * string :=
  match s with
  | EmptyString => (EmptyString, EmptyString)
  | String c s' =>
      if f c then let (a, b) := span f s' in (String c a, b)
      else (EmptyString, s)
  end.

(** The class [[^,()]]. *)
Definition in_capture_class (c : ascii) : bool :=
  negb (Ascii.eqb c "," || Ascii.eqb c "(" || Ascii.eqb c ")")%char.

Fixpoint last_char (s : string) : string :=
  match s with
  | EmptyString => EmptyString
  | String c EmptyString => s
  | String _ s' => last_char s'
  end.

(** The pattern anchored at the head of [s]. Both [\s+] are greedy. The
    first one is followed by the letter [b], so it takes the whole run of
    whitespace. The second one takes the whole run too when a character of
    the capture class follows it; when none does, it gives back its last
    character, which then is the whole capture, provided the run has two
    characters or more. *)
Definition match_by_at (kw s : string) : option string :=
  match literal kw s with
  | None => None
  | Some rest1 =>
      let (ws1, rest2) := span PyStr.is_space rest1 in
      if PyStr.nonempty ws1 then
        match literal "by" rest2 with
        | None => None
        | Some rest3 =>
            let (ws2, rest4) := span PyStr.is_space rest3 in
            let (cap, _) := span in_capture_class rest4 in
            if PyStr.nonempty ws2 then
              if PyStr.nonempty cap then Some cap
              else if (2 <=? String.length ws2)%nat then Some (last_char ws2)
              else None
            else None
        end
      else None
  end.

(** [re.search]: the match at the leftmost position that has one. *)
Fixpoint search_by (kw s : string) : option string :=
  match match_by_at kw s with
  | Some g => Some g
  | None =>
      match s with
      | EmptyString => None
      | String _ s' => search_by kw s'
      end
  end.

End Re.

(** ** [extract_signer_name] *)

(** The keywords of the three [patterns], in list order. *)
Definition patterns : list string := [ "signed"; "autographed"; "autograph" ].

Definition signer_search_text (item : Item) : string :=
  PyStr.lower (item_name item +:+ " " +:+ item_description item).

(** The [for pattern in patterns] loop. *)
Fixpoint signer_loop (search_text : string) (ps : list string) : option string :=
  match ps with
  | [] => None
  | pattern :: ps' =>
      match Re.search_by pattern search_text with
      | Some g =>
          let signer := PyStr.strip g in
          if PyStr.nonempty signer && (2 <? String.length signer)%nat
          then Some (PyStr.title signer)
          else signer_loop search_text ps'
      | None => signer_loop search_text ps'
      end
  end.

Definition extract_signer_name (item : Item) : option string :=
  if negb (is_autographed item) then None
  else signer_loop (signer_search_text item) patterns.

(** ** The CSV row and [process_item] *)

(** One row of the CSV file; the fields are the columns of
    [get_csv_headers], each holding the text written in the cell. *)
Record Row : Type := {
  row_hdbid : string;
  row_name : string;
  row_number : string;
  row_series : string;
  row_image_url : string;
  row_description : string;
  row_category : string;
  row_brand : string;
  row_upc : string;
  row_release_date : string;
  row_prod_status : string;
  row_estimated_value : string;
  row_estimated_value_currency : string;
  row_slug : string;
  row_ref_number : string;
  row_scale : string;
  row_aka : string;
  row_catalog_item_type_name : string;
  row_scraped_date : string;
  row_is_master_variant : string;
  row_master_variant_hdbid : string;
  row_variant_type : string;
  row_stickers : string;
  row_exclusivity : string;
  row_is_autographed : string;
  row_signed_by : string;
  row_features : string
}.

(** [x or ''] for an optional string. *)
Definition or_empty (x : option string) : string :=
  match x with
  | Some s => s
  | None => ""
  end.

(** The master test at the head of [process_item]. *)
Definition is_master_of (item : Item) (master_hdbid : option string) : bool :=
  match master_hdbid with
  | None => true
  | Some _ =>
      match extract_master_variant_info item with
      | None => true
      | Some master_id => String.eqb master_id (get_hdbid item)
      end
  end.

(** [process_item(item, master_hdbid)]; [now] is the reading of the clock,
    [datetime.now().isoformat()]. *)
Definition process_item (now : string) (item : Item) (master_hdbid : option string)
    : Row :=
  let hdbid := get_hdbid item in
  let is_master := is_master_of item master_hdbid in
  let stickers := extract_stickers item in
  let exclusivity := extract_exclusivity item in
  let autographed := is_autographed item in
  let signer := if autographed then extract_signer_name item else None in
  {| row_hdbid := hdbid;
     row_name := item_name item;
     row_number := item_number item;
     row_series := item_series item;
     row_image_url := item_image_url item;
     row_description := item_description item;
     row_category := item_category item;
     row_brand := item_brand item;
     row_upc := item_upc item;
     row_release_date := item_release_date item;
     row_prod_status := item_prod_status item;
     row_estimated_value := item_estimated_value item;
     row_estimated_value_currency := item_estimated_value_currency item;
     row_slug := item_slug item;
     row_ref_number := item_ref_number item;
     row_scale := item_scale item;
     row_aka := item_aka item;
     row_catalog_item_type_name := item_catalog_item_type_name item;
     row_scraped_date := now;
     row_is_master_variant := if is_master then "1" else "0";
     row_master_variant_hdbid :=
       if negb is_master
       then match master_hdbid with
            | Some m => if PyStr.nonempty m then m else hdbid
            | None => hdbid
            end
       else "";
     row_variant_type := if is_master then "master" else "subvariant";
     row_stickers := PyStr.join "|" stickers;
     row_exclusivity := or_empty exclusivity;
     row_is_autographed := if autographed then "1" else "0";
     row_signed_by := or_empty signer;
     row_features := PyStr.join "|" stickers |}.

(** ** Files, the remote service and the clock *)

Definition BATCH_SIZE : nat := 50.
Definition STOP_AFTER_MATCHES : nat := 50.

(** The fields of the progress file that [main] reads or writes. *)
Record Progress : Type := {
  last_index : Z;
  total_scraped : Z;
  last_scrape_date : option string
}.

(** The two files. [csv_file] is the list of data rows in file order (empty
    when the file does not exist); [progress_file] is [None] when the file
    does not exist or does not parse.

    The CSV file is kept at the level of its rows: the file is missing, or
    it is the header line followed by the rows, and a row is read back as
    it was written. The records of the file with the header line, a file
    that exists without a header line, and what reading makes of a carriage
    return or of a cell beyond the field limit are in [Csv] below. *)
Record Disk : Type := {
  csv_file : list Row;
  progress_file : option Progress
}.

(** What [main] talks to. [fetch_catalog_items offset limit] is the list
    under the key [data] of the response, or [None] when the call returns
    nothing ([None] or an empty object); a response without the key [data]
    is [Some []]. [fetch_subvariants] returns the empty list on every
    failure. *)
Record Env : Type := {
  fetch_catalog_items : Z -> nat -> option (list Item);
  fetch_subvariants : string -> list Item;
  datetime_now : string
}.

Definition load_progress (d : Disk) : Progress :=
  match progress_file d with
  | Some p => p
  | None => {| last_index := 0; total_scraped := 0; last_scrape_date := None |}
  end.

Definition save_progress (p : Progress) (d : Disk) : Disk :=
  {| csv_file := csv_file d; progress_file := Some p |}.

(** The identifiers of the rows of the CSV file, empty cells left out: what
    the [DictReader] loop collects from a file of the shape above, see
    [Csv.get_existing_hdbids] for the reading record by record. *)
Definition get_existing_hdbids (d : Disk) : gset string :=
  list_to_set (filter (fun h => PyStr.nonempty h = true) (map row_hdbid (csv_file d))).

Definition append_to_csv (rows : list Row) (d : Disk) : Disk :=
  {| csv_file := csv_file d ++ rows; progress_file := progress_file d |}.

(** ** The loops of [main] *)

(** The variables the item loop updates. [new_rows] is the batch of the
    current page. *)
Record Vars : Type := {
  existing_hdbids : gset string;
  consecutive_matches : nat;
  total_new : nat;
  new_rows : list Row
}.

(** [for subvariant in subvariants], under the master [hdbid]. *)
Fixpoint subvariants_loop (env : Env) (hdbid : string) (subvariants : list Item)
    (v : Vars) : Vars :=
  match subvariants with
  | [] => v
  | subvariant :: rest =>
      let sub_hdbid := get_hdbid subvariant in
      if PyStr.nonempty sub_hdbid
         && negb (bool_decide (sub_hdbid ∈ existing_hdbids v))
      then
        let sub_row := process_item (datetime_now env) subvariant (Some hdbid) in
        subvariants_loop env hdbid rest
          {| existing_hdbids := {[sub_hdbid]} ∪ existing_hdbids v;
             consecutive_matches := consecutive_matches v;
             total_new := total_new v + 1;
             new_rows := new_rows v ++ [sub_row] |}
      else subvariants_loop env hdbid rest v
  end.

(** The part of the loop body after the membership test: the row of the
    page item, then its subvariants. *)
Definition process_master (env : Env) (item : Item) (v : Vars) : Vars :=
  let hdbid := get_hdbid item in
  let master_row := process_item (datetime_now env) item None in
  subvariants_loop env hdbid (fetch_subvariants env hdbid)
    {| existing_hdbids := existing_hdbids v;
       consecutive_matches := consecutive_matches v;
       total_new := total_new v;
       new_rows := new_rows v ++ [master_row] |}.

(** [for item in items]. The second component is the part of the page the
    loop never reached: empty unless the loop left through [break]. *)
Fixpoint items_loop (env : Env) (items : list Item) (v : Vars)
    : Vars * list Item :=
  match items with
  | [] => (v, [])
  | item :: rest =>
      let hdbid := get_hdbid item in
      if negb (PyStr.nonempty hdbid) then items_loop env rest v
      else if bool_decide (hdbid ∈ existing_hdbids v) then
        let v1 := {| existing_hdbids := existing_hdbids v;
                     consecutive_matches := consecutive_matches v + 1;
                     total_new := total_new v;
                     new_rows := new_rows v |} in
        if (STOP_AFTER_MATCHES <=? consecutive_matches v1)%nat
        then (v1, rest)
        else items_loop env rest (process_master env item v1)
      else
        items_loop env rest
          (process_master env item
             {| existing_hdbids := {[hdbid]} ∪ existing_hdbids v;
                consecutive_matches := 0;
                total_new := total_new v + 1;
                new_rows := new_rows v |})
  end.

(** The state of [main] between two iterations of [while True]. *)
Record State : Type := {
  disk : Disk;
  progress : Progress;
  offset : Z;
  seen : gset string;
  matches : nat;
  new_count : nat;
  total_updated : nat
}.

(** One iteration of [while True]. The boolean tells whether the loop goes
    on: [true] after [continue] or after reaching the end of the body,
    [false] after one of the two [break]. *)
Definition main_step (env : Env) (s : State) : State * bool :=
  match fetch_catalog_items env (offset s) BATCH_SIZE with
  | None => (s, true)
  | Some [] => (s, false)
  | Some items =>
      let v := fst (items_loop env items
                      {| existing_hdbids := seen s;
                         consecutive_matches := matches s;
                         total_new := new_count s;
                         new_rows := [] |}) in
      let d1 := match new_rows v with
                | [] => disk s
                | _ => append_to_csv (new_rows v) (disk s)
                end in
      let updated := match new_rows v with
                     | [] => total_updated s
                     | _ => total_updated s + length (new_rows v)
                     end in
      let offset' := (offset s + Z.of_nat (length items))%Z in
      let progress' :=
        {| last_index := offset';
           total_scraped := (total_scraped (progress s) + Z.of_nat (length items))%Z;
           last_scrape_date := Some (datetime_now env) |} in
      ({| disk := save_progress progress' d1;
          progress := progress';
          offset := offset';
          seen := existing_hdbids v;
          matches := consecutive_matches v;
          new_count := total_new v;
          total_updated := updated |},
       negb (STOP_AFTER_MATCHES <=? consecutive_matches v)%nat)
  end.

(** [while True], cut after [fuel] iterations: [None] when the loop is still
    running then. *)
Fixpoint main_loop (env : Env) (fuel : nat) (s : State) : option State :=
  match fuel with
  | O => None
  | S fuel' =>
      let (s', go_on) := main_step env s in
      if go_on then main_loop env fuel' s' else Some s'
  end.

Definition initial_state (d : Disk) : State :=
  {| disk := d;
     progress := load_progress d;
     offset := last_index (load_progress d);
     seen := get_existing_hdbids d;
     matches := 0;
     new_count := 0;
     total_updated := 0 |}.

(** [main()], from the two files to the two files: the loop, then the
    [finally] clause saving the progress once more. *)
Definition main (env : Env) (fuel : nat) (d : Disk) : option Disk :=
  match main_loop env fuel (initial_state d) with
  | Some s => Some (save_progress (progress s) (disk s))
  | None => None
  end.

(** ** Building items *)

Definition with_id (v : Value) (i : Item) : Item :=
  {| item_id := Some v; item_hdbid := item_hdbid i;
     item_master_id := item_master_id i;
     item_catalog_item_master_id := item_catalog_item_master_id i;
     item_name := item_name i; item_number := item_number i;
     item_series := item_series i; item_image_url := item_image_url i;
     item_description := item_description i; item_category := item_category i;
     item_brand := item_brand i; item_upc := item_upc i;
     item_release_date := item_release_date i;
     item_prod_status := item_prod_status i;
     item_estimated_value := item_estimated_value i;
     item_estimated_value_currency := item_estimated_value_currency i;
     item_slug := item_slug i; item_ref_number := item_ref_number i;
     item_scale := item_scale i; item_aka := item_aka i;
     item_catalog_item_type_name := item_catalog_item_type_name i |}.

Definition with_master_id (v : Value) (i : Item) : Item :=
  {| item_id := item_id i; item_hdbid := item_hdbid i;
     item_master_id := Some v;
     item_catalog_item_master_id := item_catalog_item_master_id i;
     item_name := item_name i; item_number := item_number i;
     item_series := item_series i; item_image_url := item_image_url i;
     item_description := item_description i; item_category := item_category i;
     item_brand := item_brand i; item_upc := item_upc i;
     item_release_date := item_release_date i;
     item_prod_status := item_prod_status i;
     item_estimated_value := item_estimated_value i;
     item_estimated_value_currency := item_estimated_value_currency i;
     item_slug := item_slug i; item_ref_number := item_ref_number i;
     item_scale := item_scale i; item_aka := item_aka i;
     item_catalog_item_type_name := item_catalog_item_type_name i |}.

Definition with_name (n : string) (i : Item) : Item :=
  {| item_id := item_id i; item_hdbid := item_hdbid i;
     item_master_id := item_master_id i;
     item_catalog_item_master_id := item_catalog_item_master_id i;
     item_name := n; item_number := item_number i;
     item_series := item_series i; item_image_url := item_image_url i;
     item_description := item_description i; item_category := item_category i;
     item_brand := item_brand i; item_upc := item_upc i;
     item_release_date := item_release_date i;
     item_prod_status := item_prod_status i;
     item_estimated_value := item_estimated_value i;
     item_estimated_value_currency := item_estimated_value_currency i;
     item_slug := item_slug i; item_ref_number := item_ref_number i;
     item_scale := item_scale i; item_aka := item_aka i;
     item_catalog_item_type_name := item_catalog_item_type_name i |}.

Definition with_description (t : string) (i : Item) : Item :=
  {| item_id := item_id i; item_hdbid := item_hdbid i;
     item_master_id := item_master_id i;
     item_catalog_item_master_id := item_catalog_item_master_id i;
     item_name := item_name i; item_number := item_number i;
     item_series := item_series i; item_image_url := item_image_url i;
     item_description := t; item_category := item_category i;
     item_brand := item_brand i; item_upc := item_upc i;
     item_release_date := item_release_date i;
     item_prod_status := item_prod_status i;
     item_estimated_value := item_estimated_value i;
     item_estimated_value_currency := item_estimated_value_currency i;
     item_slug := item_slug i; item_ref_number := item_ref_number i;
     item_scale := item_scale i; item_aka := item_aka i;
     item_catalog_item_type_name := item_catalog_item_type_name i |}.

(** The item [{'id': n}]. *)
Definition item_of_id (n : Z) : Item := with_id (VInt n) empty_item.

(** The item [{'name': n}] and the item [{'description': t}]. *)
Definition item_named (n : string) : Item := with_name n empty_item.
Definition item_described (t : string) : Item := with_description t empty_item.

(** ** Reference definitions for the statements

    These follow the specification, not the source; the theorems below
    compare them with the functions above. *)

(** The feature labels in the order of the lexicon, each once. *)
Definition lexicon_labels : list string :=
  [ "Chase"; "Glow in the Dark"; "Metallic"; "Flocked"; "Chrome";
    "Blacklight"; "Diamond"; "Gold"; "Translucent"; "Scented" ].

(** The two suppression rules of the feature lexicon. *)
Definition suppressed (keyword search_text : string) : bool :=
  (String.eqb keyword "diamond" && PyStr.contains "diamond select" search_text)
  || (String.eqb keyword "gold" && PyStr.contains "golden" search_text).

(** The convention rules: the substrings tested and the name of the event. *)
Definition conventions : list (list string * string) :=
  [ (["sdcc"; "san diego comic con"], "SDCC");
    (["nycc"; "new york comic con"], "NYCC");
    (["eccc"; "emerald city comic con"], "ECCC");
    (["anime expo"; " ax "], "Anime Expo");
    (["ccxp"], "CCXP") ].

(** The priority rules of the exclusivity label as one ordered table: the
    substrings of a rule and the label it yields. *)
Definition exclusivity_rules (search_text : string) : list (list string * string) :=
  map (fun '(subs, event) =>
         (subs, event +:+ (if PyStr.contains "shared" search_text
                           then " Shared" else " Exclusive")))
      conventions
  ++ [ (["limited edition supreme"], "Limited Edition Supreme");
       (["limited edition"], "Limited Edition") ]
  ++ map (fun '(pattern, label) => ([pattern], label)) retailers.

Definition rule_matches (search_text : string) (rule : list string * string) : bool :=
  existsb (fun sub => PyStr.contains sub search_text) (fst rule).

(** First match wins. *)
Fixpoint first_match (search_text : string) (rules : list (list string * string))
    : option string :=
  match rules with
  | [] => None
  | rule :: rules' =>
      if rule_matches search_text rule then Some (snd rule)
      else first_match search_text rules'
  end.

(** What one pattern contributes to the signer: the trimmed capture,
    title-cased, when the pattern matches and the trimmed capture has more
    than two characters. *)
Definition signer_candidate (search_text pattern : string) : option string :=
  match Re.search_by pattern search_text with
  | Some g =>
      if (2 <? String.length (PyStr.strip g))%nat
      then Some (PyStr.title (PyStr.strip g)) else None
  | None => None
  end.

(** The signer under the reading that the first pattern that matches wins,
    whatever the length of its capture. *)
Fixpoint first_matching_pattern_wins (search_text : string) (ps : list string)
    : option string :=
  match ps with
  | [] => None
  | pattern :: ps' =>
      match Re.search_by pattern search_text with
      | Some _ => signer_candidate search_text pattern
      | None => first_matching_pattern_wins search_text ps'
      end
  end.

(** Master-ness read off the record alone: no master reference, or a master
    reference equal to the record's own identifier. *)
Definition own_master (item : Item) : bool :=
  match extract_master_variant_info item with
  | None => true
  | Some master_id => String.eqb master_id (get_hdbid item)
  end.

(** The variant columns of a row agree with each other. *)
Definition row_consistent (r : Row) : Prop :=
  (row_is_master_variant r = "1" <-> row_variant_type r = "master")
  /\ (row_is_master_variant r = "0" <-> row_variant_type r = "subvariant")
  /\ (row_variant_type r = "master" \/ row_variant_type r = "subvariant")
  /\ (row_master_variant_hdbid r <> "" <-> row_variant_type r = "subvariant").

(** The variables of the item loop at the start of a page. *)
Definition page_vars (s : State) : Vars :=
  {| existing_hdbids := seen s;
     consecutive_matches := matches s;
     total_new := new_count s;
     new_rows := [] |}.

(** The number of items of a page the item loop went through. *)
Definition consumed (env : Env) (items : list Item) (v : Vars) : nat :=
  length items - length (snd (items_loop env items v)).


(** How often an identifier occurs in the CSV file. *)
Definition occurrences (h : string) (d : Disk) : nat :=
  length (filter (fun r => row_hdbid r = h) (csv_file d)).

(** ** Fixtures *)

(** The items [{'id': a}, ..., {'id': a + n - 1}]. *)
Fixpoint items_from (a : Z) (n : nat) : list Item :=
  match n with
  | O => []
  | S n' => item_of_id a :: items_from (a + 1) n'
  end.

Definition empty_disk : Disk := {| csv_file := []; progress_file := None |}.

(** A service listing [catalog] from the newest item on, [limit] items a
    page, with the subvariants given by [subs]. *)
Definition listing (catalog : list Item) (subs : string -> list Item) : Env :=
  {| fetch_catalog_items := fun offset limit =>
       Some (take limit (drop (Z.to_nat offset) catalog));
     fetch_subvariants := subs;
     datetime_now := "2024-01-01T00:00:00" |}.

Definition no_subvariants : string -> list Item := fun _ => [].

(** Every character of [s] satisfies [f]. *)
Fixpoint all_chars (f : ascii -> bool) (s : string) : bool :=
  match s with
  | EmptyString => true
  | String c s' => f c && all_chars f s'
  end.

(** [post] is empty or starts with a comma or a parenthesis. *)
Definition stops_at_delimiter (post : string) : bool :=
  match post with
  | EmptyString => true
  | String c _ => negb (Re.in_capture_class c)
  end.

(** What a match is made of: the keyword, whitespace, [by], whitespace and
    the capture, in this order, the capture running up to a delimiter or to
    the end of the string. *)
Definition is_match (kw pre g post : string) : Prop :=
  exists k ws1 b ws2,
    pre = k +:+ ws1 +:+ b +:+ ws2
    /\ PyStr.lower k = PyStr.lower kw
    /\ PyStr.lower b = "by"
    /\ all_chars PyStr.is_space ws1 = true /\ ws1 <> ""
    /\ all_chars PyStr.is_space ws2 = true /\ ws2 <> ""
    /\ all_chars Re.in_capture_class g = true /\ g <> ""
    /\ stops_at_delimiter post = true.

(** An item whose first signer pattern captures two characters only. *)
Definition two_signers : Item :=
  item_described "Signed by Al, autographed by Tom Hanks".

(** A record whose master reference names another record. *)
Definition foreign_master : Item := with_master_id (VInt 7) (item_of_id 3).

(** The variables after one more match, and after a new identifier. *)
Definition matched (v : Vars) : Vars :=
  {| existing_hdbids := existing_hdbids v;
     consecutive_matches := consecutive_matches v + 1;
     total_new := total_new v;
     new_rows := new_rows v |}.

Definition added (hdbid : string) (v : Vars) : Vars :=
  {| existing_hdbids := {[hdbid]} ∪ existing_hdbids v;
     consecutive_matches := 0;
     total_new := total_new v + 1;
     new_rows := new_rows v |}.


(** A store that holds the 52 newest items already, with no progress file,
    and a service that lists them on a page of 2 and a page of 50. *)
Definition caught_up_disk : Disk :=
  {| csv_file := map (fun item => process_item "2023-12-31T00:00:00" item None)
                     (items_from 1 52);
     progress_file := None |}.

Definition caught_up_env : Env :=
  {| fetch_catalog_items := fun offset _ =>
       if (offset =? 0)%Z then Some (items_from 1 2)
       else if (offset =? 2)%Z then Some (items_from 3 50)
       else Some [];
     fetch_subvariants := no_subvariants;
     datetime_now := "2024-01-01T00:00:00" |}.

(** The state of [main] on them after the first page. *)
Definition caught_up_state : State :=
  fst (main_step caught_up_env (initial_state caught_up_disk)).

(** A master and its subvariant, both in the listing. *)
Definition listed_subvariant : Item := with_master_id (VInt 10) (item_of_id 11).

Definition family_env : Env :=
  listing [item_of_id 10; listed_subvariant]
          (fun hdbid => if String.eqb hdbid "10" then [listed_subvariant] else []).

(** A listing that shows the same item twice, and its run on an empty store. *)
Definition twice_env : Env := listing [item_of_id 1; item_of_id 1] no_subvariants.

(** The run on a master and its listed subvariant, from an empty store. *)
Definition family_run : option Disk := main family_env 2 empty_disk.

(** A first run on a catalog of one item, and a second run after one newer
    item was published in front of it. *)
Definition first_run : option Disk :=
  main (listing [item_of_id 10] no_subvariants) 2 empty_disk.

Definition second_run : option Disk :=
  match first_run with
  | Some d => main (listing [item_of_id 12; item_of_id 10] no_subvariants) 2 d
  | None => None
  end.

(** The identifiers of the rows of a store, in file order. *)
Definition stored_hdbids (d : option Disk) : option (list string) :=
  option_map (fun d' => map row_hdbid (csv_file d')) d.

(** ** Reference definitions of the further properties *)

(** The non-empty identifiers of a list of rows. *)
Definition row_hdbids (rows : list Row) : gset string :=
  list_to_set (filter (fun h => PyStr.nonempty h = true) (map row_hdbid rows)).

(** A service that fails on every page request. *)
Definition failing_env : Env :=
  {| fetch_catalog_items := fun _ _ => None;
     fetch_subvariants := no_subvariants;
     datetime_now := "2024-01-01T00:00:00" |}.

(** The owner column of a row agrees with the master it was fetched under. *)
Definition owned_by (hdbid : string) (r : Row) : Prop :=
  (row_variant_type r = "subvariant" /\ row_master_variant_hdbid r = hdbid)
  \/ (row_variant_type r = "master" /\ row_master_variant_hdbid r = "").

(** New identifiers, rows and the counter of new items, in step:
    [size e' + n = size e + n'] says the set grew by what the counter grew,
    [n' + length r <= n + length r'] that at least as many rows were added. *)
Definition counted (v v' : Vars) : Prop :=
  size (existing_hdbids v') + total_new v = size (existing_hdbids v) + total_new v'
  /\ total_new v' + length (new_rows v) <= total_new v + length (new_rows v')
  /\ total_new v <= total_new v'
  /\ existing_hdbids v ⊆ existing_hdbids v'.

(** The same for the state between two iterations, with the rows of the CSV
    file and the counter of rows. *)
Definition tallied (s s' : State) : Prop :=
  size (seen s') + new_count s = size (seen s) + new_count s'
  /\ new_count s' + total_updated s <= new_count s + total_updated s'
  /\ total_updated s' + length (csv_file (disk s))
     = total_updated s + length (csv_file (disk s'))
  /\ new_count s <= new_count s'
  /\ seen s ⊆ seen s'.

(** The cursor is the offset of the progress record, and the total moves
    with it. *)
Definition in_lockstep (c : Z) (s : State) : Prop :=
  last_index (progress s) = offset s
  /\ (total_scraped (progress s) - offset s)%Z = c.

(** A text of ASCII characters only. On such a text [str.lower], [in],
    [str.strip], [str.title] and the regular expressions of Python are those
    of [PyStr] and [Re]; on other characters Python's are aware of Unicode
    (a long s matches the letter s under [re.IGNORECASE], for one). *)
Definition is_ascii_char (c : ascii) : bool := (nat_of_ascii c <? 128)%nat.

Definition ascii_text (s : string) : Prop := all_chars is_ascii_char s = true.

(** Two items whose texts differ by the case of their letters only, on the
    six keys the detectors read. *)
Definition same_up_to_case (a b : Item) : Prop :=
  PyStr.lower (item_name a) = PyStr.lower (item_name b)
  /\ PyStr.lower (item_description a) = PyStr.lower (item_description b)
  /\ PyStr.lower (item_prod_status a) = PyStr.lower (item_prod_status b)
  /\ PyStr.lower (item_series a) = PyStr.lower (item_series b)
  /\ PyStr.lower (item_slug a) = PyStr.lower (item_slug b)
  /\ PyStr.lower (item_image_url a) = PyStr.lower (item_image_url b).

(** ** The CSV file, record by record *)

(** The file as the [csv] module writes and reads it: a list of records,
    each a list of cells. [Disk] keeps the rows only; here the header line,
    the field names of [DictWriter], the dicts of [DictReader], the
    translation of line ends when the file is read as text, and the error
    the reader raises on a cell beyond its limit are written out. Quoting
    is left to the [csv] module, which reads back the cells it wrote. *)
Module Csv.

(** The records of the file, [None] when the path does not exist. *)
Definition File : Type := option (list (list string)).

Definition get_csv_headers : list string :=
  [ "hdbid"; "name"; "number"; "series"; "image_url"; "description";
    "category"; "brand"; "upc"; "release_date"; "prod_status";
    "estimated_value"; "estimated_value_currency"; "slug"; "ref_number";
    "scale"; "aka"; "catalog_item_type_name"; "scraped_date";
    "is_master_variant"; "master_variant_hdbid"; "variant_type";
    "stickers"; "exclusivity"; "is_autographed"; "signed_by"; "features" ].

(** The dict [process_item] builds: its keys and values in the order of the
    literal. *)
Definition row_dict (r : Row) : list (string * string) :=
  [ ("hdbid", row_hdbid r);
    ("name", row_name r);
    ("number", row_number r);
    ("series", row_series r);
    ("image_url", row_image_url r);
    ("description", row_description r);
    ("category", row_category r);
    ("brand", row_brand r);
    ("upc", row_upc r);
    ("release_date", row_release_date r);
    ("prod_status", row_prod_status r);
    ("estimated_value", row_estimated_value r);
    ("estimated_value_currency", row_estimated_value_currency r);
    ("slug", row_slug r);
    ("ref_number", row_ref_number r);
    ("scale", row_scale r);
    ("aka", row_aka r);
    ("catalog_item_type_name", row_catalog_item_type_name r);
    ("scraped_date", row_scraped_date r);
    ("is_master_variant", row_is_master_variant r);
    ("master_variant_hdbid", row_master_variant_hdbid r);
    ("variant_type", row_variant_type r);
    ("stickers", row_stickers r);
    ("exclusivity", row_exclusivity r);
    ("is_autographed", row_is_autographed r);
    ("signed_by", row_signed_by r);
    ("features", row_features r) ].

(** [d.get(key)] on a dict given by its assignments in order: a later
    assignment to a key replaces an earlier one. *)
Fixpoint dict_get {V : Type} (d : list (string * V)) (key : string) : option V :=
  match d with
  | [] => None
  | (k, v) :: d' =>
      match dict_get d' key with
      | Some v' => Some v'
      | None => if String.eqb k key then Some v else None
      end
  end.

(** [DictWriter.writerow(rowdict)] with the default [extrasaction='raise']
    and [restval='']: [None] for the [ValueError] raised on a key outside
    the field names. *)
Definition writerow (fieldnames : list string) (rowdict : list (string * string))
    : option (list string) :=
  if forallb (fun kv => existsb (String.eqb (fst kv)) fieldnames) rowdict
  then Some (map (fun key => default "" (dict_get rowdict key)) fieldnames)
  else None.

(** [for row in rows: writer.writerow(row)] *)
Fixpoint writerows (fieldnames : list string) (rows : list Row)
    : option (list (list string)) :=
  match rows with
  | [] => Some []
  | r :: rows' =>
      match writerow fieldnames (row_dict r) with
      | Some cells => option_map (cons cells) (writerows fieldnames rows')
      | None => None
      end
  end.

(** [append_to_csv(rows, file_path)]: [None] when a row is refused. *)
Definition append_to_csv (rows : list Row) (f : File) : option File :=
  let file_exists := match f with Some _ => true | None => false end in
  let header := if negb file_exists then [get_csv_headers] else [] in
  match writerows get_csv_headers rows with
  | Some records => Some (Some (default [] f ++ header ++ records))
  | None => None
  end.

(** The dict [DictReader] makes of a record: the field names zipped with the
    cells, then [None] for each field name the record is too short for. The
    surplus cells of a long record go under the key [None], which no string
    key reads. *)
Definition reader_dict (fieldnames row : list string) : list (string * option string) :=
  combine fieldnames (map Some row)
  ++ map (fun key => (key, None)) (drop (length row) fieldnames).

(** [csv.field_size_limit()]: the longest cell the reader accepts. *)
Definition field_size_limit : N := 131072.

(** What reading in text mode makes of a cell. The file is written with
    [newline=''], so a cell reaches the file as it is, and read with the
    default [newline=None], which turns a carriage return into a line feed
    and drops a line feed that follows a carriage return. *)
Fixpoint translate (after_cr : bool) (s : string) : string :=
  match s with
  | EmptyString => EmptyString
  | String c s' =>
      if Ascii.eqb c "013"%char then String "010"%char (translate true s')
      else if Ascii.eqb c "010"%char && after_cr then translate false s'
      else String c (translate false s')
  end.

Definition universal_newlines (s : string) : string := translate false s.

(** The record the reader returns for a record of the file: [None] for the
    [csv.Error] it raises on a cell longer than the limit. *)
Definition read_record (record : list string) : option (list string) :=
  let cells := map universal_newlines record in
  if forallb (fun cell => (N.of_nat (String.length cell) <=? field_size_limit)%N) cells
  then Some cells else None.

(** [for row in reader], an empty record being passed over. An error of
    the reader ends the loop: the [except] clause prints it and the
    identifiers read so far are returned. *)
Fixpoint reader_loop (fieldnames : list string) (records : list (list string))
    (seen : gset string) : gset string :=
  match records with
  | [] => seen
  | record :: rest =>
      match read_record record with
      | None => seen
      | Some [] => reader_loop fieldnames rest seen
      | Some row =>
          match dict_get (reader_dict fieldnames row) "hdbid" with
          | Some (Some h) =>
              if PyStr.nonempty h
              then reader_loop fieldnames rest (seen ∪ {[ h ]})
              else reader_loop fieldnames rest seen
          | _ => reader_loop fieldnames rest seen
          end
      end
  end.

(** [get_existing_hdbids()]: the first record gives the field names. *)
Definition get_existing_hdbids (f : File) : gset string :=
  match f with
  | None => ∅
  | Some [] => ∅
  | Some (header :: records) =>
      match read_record header with
      | Some fieldnames => reader_loop fieldnames records ∅
      | None => ∅
      end
  end.

(** The cells of a row in the order of the columns. *)
Definition row_cells (r : Row) : list string :=
  [ row_hdbid r; row_name r; row_number r; row_series r; row_image_url r;
    row_description r; row_category r; row_brand r; row_upc r;
    row_release_date r; row_prod_status r; row_estimated_value r;
    row_estimated_value_currency r; row_slug r; row_ref_number r; row_scale r;
    row_aka r; row_catalog_item_type_name r; row_scraped_date r;
    row_is_master_variant r; row_master_variant_hdbid r; row_variant_type r;
    row_stickers r; row_exclusivity r; row_is_autographed r; row_signed_by r;
    row_features r ].

(** The file [f] holds the rows [rows] of a [Disk]: it does not exist and
    there are none, or it is the header line followed by their cells. *)
Definition represents (f : File) (rows : list Row) : Prop :=
  (f = None /\ rows = []) \/ f = Some (get_csv_headers :: map row_cells rows).

(** A cell the reader returns as it was written: it holds no carriage
    return and is not longer than the limit. *)
Definition readable_cell (cell : string) : bool :=
  all_chars (fun c => negb (Ascii.eqb c "013"%char)) cell
  && (N.of_nat (String.length cell) <=? field_size_limit)%N.

Definition readable (r : Row) : Prop := forallb readable_cell (row_cells r) = true.

End Csv.

(** A row as the run writes it for the item numbered 1. *)
Definition sample_row : Row := process_item "2024-01-01T00:00:00" (item_of_id 1) None.

(** * Properties *)

(** ** Substrings *)

Section PyStrFacts.
Import PyStr.

Lemma append_cons (c : ascii) (a b : string) :
  String c a +:+ b = String c (a +:+ b).
Proof. reflexivity. Qed.

Lemma append_assoc (a b c : string) : (a +:+ b) +:+ c = a +:+ (b +:+ c).
Proof.
  induction a as [|x a IH]; [reflexivity|].
  by rewrite !append_cons, IH.
Qed.

Lemma prefix_app (p s : string) :
  String.prefix p s = true <-> exists t, s = p +:+ t.
Proof.
  revert s. induction p as [|a p IH]; intros s.
  - split; [intros _; exists s; reflexivity | intros _; destruct s; reflexivity].
  - destruct s as [|b s]; simpl.
    + split; [discriminate | intros [t Ht]; discriminate].
    + destruct (Ascii.ascii_dec a b) as [->|Hne].
      * rewrite IH. split; intros [t Ht]; exists t; [by rewrite Ht | by injection Ht].
      * split; [discriminate | intros [t Ht]; injection Ht; congruence].
Qed.

Lemma contains_spec (sub s : string) :
  contains sub s = true <-> exists pre post, s = pre +:+ sub +:+ post.
Proof.
  induction s as [|c s IH]; cbn [contains].
  - rewrite orb_false_r, prefix_app. split.
    + intros [t Ht]. exists "", t. done.
    + intros (pre & post & H). destruct pre; [by exists post | discriminate].
  - rewrite orb_true_iff, IH. rewrite (prefix_app sub (String c s)). split.
    + intros [[t Ht] | (pre & post & H)].
      * exists "", t. done.
      * exists (String c pre), post. simpl. by rewrite H.
    + intros (pre & post & H). destruct pre as [|c' pre].
      * left. by exists post.
      * right. simpl in H. injection H as _ H. by exists pre, post.
Qed.

Lemma contains_app_l (sub a b : string) :
  contains sub a = true -> contains sub (a +:+ b) = true.
Proof.
  rewrite !contains_spec. intros (pre & post & ->).
  exists pre, (post +:+ b). by rewrite !append_assoc.
Qed.

Lemma contains_app_r (sub a b : string) :
  contains sub b = true -> contains sub (a +:+ b) = true.
Proof.
  rewrite !contains_spec. intros (pre & post & ->).
  exists (a +:+ pre), post. by rewrite !append_assoc.
Qed.
End PyStrFacts.

(** ** Stickers *)

Section Stickers.
Variable text : string.

Lemma stickers_loop_cons keyword label fs acc :
  stickers_loop text ((keyword, label) :: fs) acc =
  stickers_loop text fs
    (if PyStr.contains keyword text && negb (bool_decide (label ∈ acc))
        && negb (suppressed keyword text)
     then acc ++ [label] else acc).
Proof.
  cbn [stickers_loop]. unfold suppressed.
  destruct (PyStr.contains keyword text), (bool_decide (label ∈ acc)),
    (String.eqb keyword "diamond" && PyStr.contains "diamond select" text),
    (String.eqb keyword "gold" && PyStr.contains "golden" text); reflexivity.
Qed.

Lemma stickers_loop_NoDup fs acc :
  NoDup acc -> NoDup (stickers_loop text fs acc).
Proof.
  revert acc. induction fs as [|[keyword label] fs IH]; intros acc Hacc; [done|].
  rewrite stickers_loop_cons. apply IH.
  destruct (bool_decide (label ∈ acc)) eqn:Hin;
    [by rewrite andb_false_r | apply bool_decide_eq_false in Hin].
  destruct (_ && _); [|done].
  apply NoDup_app. split_and!; [done | | apply NoDup_singleton].
  intros x Hx ->%list_elem_of_singleton. done.
Qed.

Lemma stickers_loop_elem fs acc label :
  label ∈ stickers_loop text fs acc <->
  label ∈ acc \/
  exists keyword, (keyword, label) ∈ fs
                  /\ PyStr.contains keyword text = true
                  /\ suppressed keyword text = false.
Proof.
  revert acc. induction fs as [|[k l0] fs IH]; intros acc.
  - cbn [stickers_loop]. split; [by left|].
    intros [H | (k & H & _)]; [done | by apply not_elem_of_nil in H].
  - rewrite stickers_loop_cons, IH. clear IH.
    destruct (PyStr.contains k text) eqn:Hc; cbn [andb].
    + destruct (bool_decide (l0 ∈ acc)) eqn:Hin; cbn [andb negb].
      * apply bool_decide_eq_true in Hin. split.
        -- intros [H | (k' & H & H1 & H2)]; [by left | right].
           exists k'. split_and!; [by apply list_elem_of_further | done..].
        -- intros [H | (k' & H & H1 & H2)]; [by left |].
           apply elem_of_cons in H as [[= -> ->] | H]; [by left |].
           right. by exists k'.
      * apply bool_decide_eq_false in Hin.
        destruct (suppressed k text) eqn:Hs; cbn [negb].
        -- split.
           ++ intros [H | (k' & H & H1 & H2)]; [by left | right].
              exists k'. split_and!; [by apply list_elem_of_further | done..].
           ++ intros [H | (k' & H & H1 & H2)]; [by left |].
              apply elem_of_cons in H as [[= -> ->] | H]; [congruence |].
              right. by exists k'.
        -- rewrite elem_of_app, list_elem_of_singleton. split.
           ++ intros [[H | ->] | (k' & H & H1 & H2)]; [by left | right..].
              ** exists k. split_and!; [apply list_elem_of_here | done..].
              ** exists k'. split_and!; [by apply list_elem_of_further | done..].
           ++ intros [H | (k' & H & H1 & H2)]; [by left; left |].
              apply elem_of_cons in H as [[= -> ->] | H]; [by left; right |].
              right. by exists k'.
    + split.
      * intros [H | (k' & H & H1 & H2)]; [by left | right].
        exists k'. split_and!; [by apply list_elem_of_further | done..].
      * intros [H | (k' & H & H1 & H2)]; [by left |].
        apply elem_of_cons in H as [[= -> ->] | H]; [congruence |].
        right. by exists k'.
Qed.

Lemma stickers_loop_sublist fs acc :
  exists r, stickers_loop text fs acc = acc ++ r /\ r `sublist_of` map snd fs.
Proof.
  revert acc. induction fs as [|[k l0] fs IH]; intros acc.
  - exists []. by rewrite app_nil_r.
  - rewrite stickers_loop_cons.
    destruct (_ && _).
    + destruct (IH (acc ++ [l0])) as (r & -> & Hr).
      exists (l0 :: r). split; [by rewrite <- List.app_assoc | by apply sublist_skip].
    + destruct (IH acc) as (r & -> & Hr).
      exists r. split; [done | by apply sublist_cons].
Qed.
End Stickers.

Lemma sublist_twice {A} (x : A) (l k1 k2 : list A) :
  NoDup l -> l `sublist_of` k1 ++ x :: x :: k2 -> l `sublist_of` k1 ++ x :: k2.
Proof.
  intros Hnd (l1 & l2 & -> & H1 & H2)%sublist_app_r.
  apply sublist_app; [done|].
  apply sublist_cons_r in H2 as [H2 | (l' & -> & H2)]; [done|].
  apply sublist_cons_r in H2 as [H2 | (l'' & -> & H2)]; [by apply sublist_skip|].
  apply NoDup_app in Hnd as (_ & _ & Hnd).
  apply NoDup_cons in Hnd as [Hnd _]. contradict Hnd. apply list_elem_of_here.
Qed.

Lemma extract_stickers_sublist (item : Item) : extract_stickers item `sublist_of` lexicon_labels.
Proof.
  unfold extract_stickers.
  destruct (stickers_loop_sublist (stickers_search_text item) features [])
    as (r & Hr & Hsub).
  pose proof (stickers_loop_NoDup (stickers_search_text item) features [] (NoDup_nil_2))
    as Hnd.
  rewrite Hr in *. cbn [app] in *.
  apply (sublist_twice "Glow in the Dark" r ["Chase"]); done.
Qed.

Lemma features_label_keyword (keyword label : string) :
  (keyword, label) ∈ features ->
  (label = "Diamond" -> keyword = "diamond") /\ (label = "Gold" -> keyword = "gold").
Proof.
  unfold features. intros H.
  repeat (apply elem_of_cons in H as [H | H]; [simplify_eq; split; intros; simplify_eq; done|]).
  by apply not_elem_of_nil in H.
Qed.

(** C7. [extract_stickers] searches the lower-cased name, production status
    and description. Every label comes out at most once; a label comes out
    exactly when one of its keywords occurs in the text and is not
    suppressed; Diamond is suppressed by "diamond select" and Gold by
    "golden"; the labels come out in the order of the lexicon, whatever
    their order in the text; a record named "Golden Freddy" has no Gold. *)
Theorem extract_stickers_lexicon_order :
  (forall item, stickers_search_text item =
                PyStr.lower (item_name item) +:+ " " +:+
                PyStr.lower (item_prod_status item) +:+ " " +:+
                PyStr.lower (item_description item))
  /\ (forall item, NoDup (extract_stickers item))
  /\ (forall item label,
        label ∈ extract_stickers item <->
        exists keyword, (keyword, label) ∈ features
                        /\ PyStr.contains keyword (stickers_search_text item) = true
                        /\ suppressed keyword (stickers_search_text item) = false)
  /\ (forall item,
        PyStr.contains "diamond select" (stickers_search_text item) = true ->
        "Diamond" ∉ extract_stickers item)
  /\ (forall item,
        PyStr.contains "golden" (stickers_search_text item) = true ->
        "Gold" ∉ extract_stickers item)
  /\ (forall item, extract_stickers item `sublist_of` lexicon_labels)
  /\ (forall item, item_name item = "Golden Freddy" -> "Gold" ∉ extract_stickers item)
  /\ extract_stickers (item_named "Golden Freddy") = []
  /\ extract_stickers (item_named "Scented Gitd Chase Glow")
     = ["Chase"; "Glow in the Dark"; "Scented"].
Proof.
  assert (Hel : forall item label,
             label ∈ extract_stickers item <->
             exists keyword, (keyword, label) ∈ features
                             /\ PyStr.contains keyword (stickers_search_text item) = true
                             /\ suppressed keyword (stickers_search_text item) = false).
  { intros item label. unfold extract_stickers. rewrite stickers_loop_elem.
    split; [intros [H | H]; [by apply not_elem_of_nil in H | done] | by right]. }
  assert (Hgold : forall item,
             PyStr.contains "golden" (stickers_search_text item) = true ->
             "Gold" ∉ extract_stickers item).
  { intros item Hc (k & Hk & _ & Hs)%Hel.
    destruct (features_label_keyword _ _ Hk) as [_ Hkw].
    rewrite (Hkw eq_refl) in Hs.
    unfold suppressed in Hs. rewrite Hc in Hs. discriminate. }
  split_and!.
  - reflexivity.
  - intros item. apply stickers_loop_NoDup, NoDup_nil_2.
  - exact Hel.
  - intros item Hc (k & Hk & _ & Hs)%Hel.
    destruct (features_label_keyword _ _ Hk) as [Hkw _].
    rewrite (Hkw eq_refl) in Hs.
    unfold suppressed in Hs. rewrite Hc in Hs. discriminate.
  - exact Hgold.
  - exact extract_stickers_sublist.
  - intros item Hname. apply Hgold. unfold stickers_search_text.
    rewrite Hname. apply contains_app_l. reflexivity.
  - vm_compute. reflexivity.
  - vm_compute. reflexivity.
Qed.

Lemma extract_stickers_lexicon_order_witness :
  ("Gold" ∉ extract_stickers (item_named "Golden Freddy"))
  /\ ("Diamond" ∉ extract_stickers (item_named "Diamond Select Batman")).
Proof.
  split.
  - apply (proj1 (proj2 (proj2 (proj2 (proj2 extract_stickers_lexicon_order))))).
    vm_compute. reflexivity.
  - apply (proj1 (proj2 (proj2 (proj2 extract_stickers_lexicon_order)))).
    vm_compute. reflexivity.
Defined.

(** ** Exclusivity *)

Ltac on_keyword k :=
  match goal with
  | |- context [PyStr.contains k ?t] =>
      destruct (PyStr.contains k t); cbn [orb andb]; try reflexivity
  end.

Lemma extract_exclusivity_rules (item : Item) :
  extract_exclusivity item =
  first_match (exclusivity_search_text item)
              (exclusivity_rules (exclusivity_search_text item)).
Proof.
  unfold extract_exclusivity, exclusivity_rules, conventions, retailers.
  generalize (exclusivity_search_text item). intros t.
  cbn [map app first_match rule_matches existsb fst snd retailers_loop].
  destruct (PyStr.contains "shared" t).
  all: on_keyword "sdcc"; on_keyword "san diego comic con";
       on_keyword "nycc"; on_keyword "new york comic con";
       on_keyword "eccc"; on_keyword "emerald city comic con";
       on_keyword "anime expo"; on_keyword " ax "; on_keyword "ccxp";
       on_keyword "limited edition supreme"; on_keyword "limited edition";
       on_keyword "hot topic"; on_keyword "gamestop"; on_keyword "target";
       on_keyword "walmart"; on_keyword "amazon"; on_keyword "barnes & noble";
       on_keyword "barnes and noble"; on_keyword "boxlunch";
       on_keyword "funko shop"; on_keyword "entertainment earth";
       on_keyword "anime of the year"; on_keyword "supreme".
Qed.

Lemma first_match_Some (t : string) (rules : list (list string * string)) (label : string) :
  first_match t rules = Some label <->
  exists before rule after,
    rules = before ++ rule :: after
    /\ Forall (fun r => rule_matches t r = false) before
    /\ rule_matches t rule = true
    /\ snd rule = label.
Proof.
  induction rules as [|r rules IH]; cbn [first_match].
  - split; [discriminate|]. intros (before & rule & after & H & _).
    by destruct before.
  - destruct (rule_matches t r) eqn:Hr.
    + split.
      * intros [= <-]. by exists [], r, rules.
      * intros (before & rule & after & H & Hb & Hm & <-).
        destruct before as [|r' before]; cbn in H; simplify_eq; [done|].
        apply Forall_cons in Hb as [Hb _]. congruence.
    + rewrite IH. split.
      * intros (before & rule & after & -> & Hb & Hm & <-).
        exists (r :: before), rule, after. split_and!; try done.
        by apply Forall_cons.
      * intros (before & rule & after & H & Hb & Hm & <-).
        destruct before as [|r' before]; cbn in H; simplify_eq; [congruence|].
        apply Forall_cons in Hb as [_ Hb]. by exists before, rule, after.
Qed.

Lemma first_match_None (t : string) (rules : list (list string * string)) :
  first_match t rules = None <-> Forall (fun r => rule_matches t r = false) rules.
Proof.
  induction rules as [|r rules IH]; cbn [first_match]; [done|].
  destruct (rule_matches t r) eqn:Hr.
  - split; [discriminate|]. intros [H _]%Forall_cons. congruence.
  - rewrite IH. split; [intros H; by apply Forall_cons | by intros [_ H]%Forall_cons].
Qed.

(** C8, as amended. [extract_exclusivity] searches the lower-cased name, series and
    description and is the first-match-wins evaluation of the rule table
    [exclusivity_rules]: the five conventions in the order SDCC, NYCC, ECCC,
    Anime Expo, CCXP, each labelled "Shared" when the text contains "shared"
    and "Exclusive" otherwise, then "limited edition supreme", then
    "limited edition", then the retailers in the order of their lexicon; it
    is absent exactly when no rule matches. A record whose name contains
    "nycc", whose description is "Shared with NYCC" and whose text does not
    trigger the SDCC rule before it gets "NYCC Shared". *)
Theorem extract_exclusivity_first_match_wins :
  (forall item, exclusivity_search_text item =
                PyStr.lower (item_name item) +:+ " " +:+
                PyStr.lower (item_series item) +:+ " " +:+
                PyStr.lower (item_description item))
  /\ (forall t, map fst (exclusivity_rules t) =
                [ ["sdcc"; "san diego comic con"]; ["nycc"; "new york comic con"];
                  ["eccc"; "emerald city comic con"]; ["anime expo"; " ax "];
                  ["ccxp"]; ["limited edition supreme"]; ["limited edition"];
                  ["hot topic"]; ["gamestop"]; ["target"]; ["walmart"];
                  ["amazon"]; ["barnes & noble"]; ["barnes and noble"];
                  ["boxlunch"]; ["funko shop"]; ["entertainment earth"];
                  ["anime of the year"]; ["supreme"] ])
  /\ (forall t, map snd (exclusivity_rules t) =
                map (fun event => event +:+ (if PyStr.contains "shared" t
                                             then " Shared" else " Exclusive"))
                    [ "SDCC"; "NYCC"; "ECCC"; "Anime Expo"; "CCXP" ]
                ++ [ "Limited Edition Supreme"; "Limited Edition"; "Hot Topic";
                     "GameStop"; "Target"; "Walmart"; "Amazon"; "Barnes & Noble";
                     "Barnes & Noble"; "BoxLunch"; "Funko Shop";
                     "Entertainment Earth"; "Anime of the Year"; "Supreme" ])
  /\ (forall item label,
        extract_exclusivity item = Some label <->
        exists before rule after,
          exclusivity_rules (exclusivity_search_text item) = before ++ rule :: after
          /\ Forall (fun r => rule_matches (exclusivity_search_text item) r = false) before
          /\ rule_matches (exclusivity_search_text item) rule = true
          /\ snd rule = label)
  /\ (forall item,
        extract_exclusivity item = None <->
        Forall (fun r => rule_matches (exclusivity_search_text item) r = false)
               (exclusivity_rules (exclusivity_search_text item)))
  /\ (forall item,
        PyStr.contains "nycc" (PyStr.lower (item_name item)) = true ->
        item_description item = "Shared with NYCC" ->
        PyStr.contains "sdcc" (exclusivity_search_text item) = false ->
        PyStr.contains "san diego comic con" (exclusivity_search_text item) = false ->
        extract_exclusivity item = Some "NYCC Shared")
  /\ extract_exclusivity (with_name "Batman NYCC" (item_described "Shared with NYCC"))
     = Some "NYCC Shared".
Proof.
  split_and!.
  - reflexivity.
  - intros t. unfold exclusivity_rules, conventions, retailers. cbn [map app fst].
    reflexivity.
  - intros t. unfold exclusivity_rules, conventions, retailers. cbn [map app snd].
    reflexivity.
  - intros item label. rewrite extract_exclusivity_rules. apply first_match_Some.
  - intros item. rewrite extract_exclusivity_rules. apply first_match_None.
  - intros item Hname Hdesc Hsdcc Hsd.
    assert (Hnycc : PyStr.contains "nycc" (exclusivity_search_text item) = true).
    { unfold exclusivity_search_text. by apply contains_app_l. }
    assert (Hshared : PyStr.contains "shared" (exclusivity_search_text item) = true).
    { unfold exclusivity_search_text. rewrite Hdesc.
      do 4 apply contains_app_r. reflexivity. }
    unfold extract_exclusivity. rewrite Hsdcc, Hsd, Hnycc, Hshared. reflexivity.
  - vm_compute. reflexivity.
Qed.

Lemma extract_exclusivity_first_match_wins_witness :
  extract_exclusivity (with_name "NYCC 2019 Deadpool" (item_described "Shared with NYCC"))
  = Some "NYCC Shared".
Proof.
  apply (proj1 (proj2 (proj2 (proj2 (proj2 (proj2 extract_exclusivity_first_match_wins))))));
    vm_compute; reflexivity.
Defined.

(** C8, counterexample. The name "SDCC NYCC Batman" contains "nycc" and the
    description is "Shared with NYCC", yet the text also contains "sdcc":
    the SDCC rule comes first and the label is "SDCC Shared". *)
Lemma sdcc_rule_precedes_nycc_example :
  PyStr.contains "nycc"
    (PyStr.lower (item_name (with_name "SDCC NYCC Batman"
                               (item_described "Shared with NYCC")))) = true
  /\ item_description (with_name "SDCC NYCC Batman" (item_described "Shared with NYCC"))
     = "Shared with NYCC"
  /\ extract_exclusivity (with_name "SDCC NYCC Batman" (item_described "Shared with NYCC"))
     = Some "SDCC Shared".
Proof. vm_compute. done. Qed.

(** ** The regular expressions *)

Lemma span_spec (f : ascii -> bool) (s a b : string) :
  Re.span f s = (a, b) ->
  s = a +:+ b /\ all_chars f a = true
  /\ match b with EmptyString => True | String c _ => f c = false end.
Proof.
  revert a b. induction s as [|c s IH]; intros a b; cbn [Re.span].
  - intros [= <- <-]. done.
  - destruct (f c) eqn:Hc.
    + destruct (Re.span f s) as [a' b'] eqn:Hs. intros [= <- <-].
      destruct (IH a' b' eq_refl) as (-> & Ha & Hb).
      split_and!; [done | | done]. cbn [all_chars]. by rewrite Hc, Ha.
    + intros [= <- <-]. done.
Qed.

Lemma literal_spec (p s r : string) :
  Re.literal p s = Some r ->
  exists m, s = m +:+ r /\ PyStr.lower m = PyStr.lower p.
Proof.
  revert s. induction p as [|a p IH]; intros s; cbn [Re.literal].
  - intros [= ->]. by exists "".
  - destruct s as [|b s]; [discriminate|].
    destruct (Ascii.eqb (PyStr.to_lower a) (PyStr.to_lower b)) eqn:Hab; [|discriminate].
    apply Ascii.eqb_eq in Hab. intros (m & -> & Hm)%IH.
    exists (String b m). split; [done|]. cbn [PyStr.lower]. by rewrite Hab, Hm.
Qed.

Lemma last_char_spec (f : ascii -> bool) (ws : string) :
  all_chars f ws = true -> (2 <= String.length ws)%nat ->
  exists ws' c, ws = ws' +:+ String c "" /\ Re.last_char ws = String c ""
                /\ f c = true /\ ws' <> "".
Proof.
  induction ws as [|c ws IH]; cbn [all_chars String.length]; [lia|].
  intros [Hc Hall]%andb_true_iff Hlen.
  destruct ws as [|c' ws]; [cbn in Hlen; lia|].
  destruct ws as [|c'' ws].
  - exists (String c ""), c'. cbn [all_chars] in Hall.
    apply andb_true_iff in Hall as [Hc' _]. done.
  - destruct IH as (ws' & d & Heq & Hlast & Hd & _); [done | cbn; lia |].
    exists (String c ws'), d. split_and!; [|done..].
    + rewrite append_cons. by rewrite <- Heq.
Qed.

Lemma space_in_capture_class (c : ascii) :
  PyStr.is_space c = true -> Re.in_capture_class c = true.
Proof.
  destruct c as [[] [] [] [] [] [] [] []]; vm_compute; congruence.
Qed.

Lemma nonempty_iff (s : string) : PyStr.nonempty s = true <-> s <> "".
Proof. destruct s; cbn; split; congruence. Qed.

Lemma match_by_at_spec (kw s g : string) :
  Re.match_by_at kw s = Some g ->
  exists pre post, s = pre +:+ g +:+ post /\ is_match kw pre g post.
Proof.
  unfold Re.match_by_at.
  destruct (Re.literal kw s) as [rest1|] eqn:H1; [|discriminate].
  destruct (Re.span PyStr.is_space rest1) as [ws1 rest2] eqn:H2.
  destruct (PyStr.nonempty ws1) eqn:Hws1; [|discriminate].
  destruct (Re.literal "by" rest2) as [rest3|] eqn:H3; [|discriminate].
  destruct (Re.span PyStr.is_space rest3) as [ws2 rest4] eqn:H4.
  destruct (Re.span Re.in_capture_class rest4) as [cap post] eqn:H5.
  destruct (PyStr.nonempty ws2) eqn:Hws2; [|discriminate].
  apply literal_spec in H1 as (k & -> & Hk).
  apply span_spec in H2 as (-> & Hs1 & _).
  apply literal_spec in H3 as (b & -> & Hb).
  apply span_spec in H4 as (-> & Hs2 & Hrest4).
  apply span_spec in H5 as (-> & Hcap & Hpost).
  apply nonempty_iff in Hws1.
  apply nonempty_iff in Hws2.
  destruct (PyStr.nonempty cap) eqn:Hne.
  - intros [= <-]. apply nonempty_iff in Hne.
    exists (k +:+ ws1 +:+ b +:+ ws2), post. split.
    + by rewrite !append_assoc.
    + exists k, ws1, b, ws2. split_and!; try done.
      destruct post; [done|]. cbn. by rewrite Hpost.
  - destruct cap; [|discriminate]. clear Hne Hcap.
    destruct (2 <=? String.length ws2)%nat eqn:Hlen; [|discriminate].
    apply Nat.leb_le in Hlen.
    destruct (last_char_spec _ _ Hs2 Hlen) as (ws' & c & -> & -> & Hc & Hws').
    intros [= <-].
    exists (k +:+ ws1 +:+ b +:+ ws'), post. split.
    + by rewrite !append_assoc.
    + exists k, ws1, b, ws'. split_and!; try done.
      * clear -Hs2. induction ws' as [|x ws' IH]; [done|].
        rewrite append_cons in Hs2. cbn [all_chars] in *.
        apply andb_true_iff in Hs2 as [-> H]. by rewrite IH.
      * cbn. by rewrite (space_in_capture_class _ Hc).
      * cbn in Hrest4 |- *. destruct post; [done|]. cbn. by rewrite Hpost.
Qed.

Lemma search_by_spec (kw s g : string) :
  Re.search_by kw s = Some g ->
  exists pre post, s = pre +:+ g +:+ post
    /\ exists skipped m, pre = skipped +:+ m /\ is_match kw m g post.
Proof.
  induction s as [|c s IH]; cbn [Re.search_by].
  - destruct (Re.match_by_at kw "") eqn:Hm; [|discriminate].
    intros [= ->]. apply match_by_at_spec in Hm as (pre & post & H & Hm).
    exists pre, post. split; [done|]. by exists "", pre.
  - destruct (Re.match_by_at kw (String c s)) eqn:Hm.
    + intros [= ->]. apply match_by_at_spec in Hm as (pre & post & H & Hm).
      exists pre, post. split; [done|]. by exists "", pre.
    + intros (pre & post & -> & skipped & m & -> & Hm')%IH.
      exists (String c skipped +:+ m), post. split.
      * by rewrite !append_cons.
      * by exists (String c skipped), m.
Qed.

(** ** The signer *)

Lemma signer_loop_cons (t pattern : string) (ps : list string) :
  signer_loop t (pattern :: ps) =
  match signer_candidate t pattern with
  | Some signer => Some signer
  | None => signer_loop t ps
  end.
Proof.
  cbn [signer_loop]. unfold signer_candidate.
  destruct (Re.search_by pattern t) as [g|]; [|done].
  destruct (PyStr.strip g) as [|c1 [|c2 [|c3 r]]]; reflexivity.
Qed.

Lemma signer_loop_Some (t : string) (ps : list string) (signer : string) :
  signer_loop t ps = Some signer <->
  exists before pattern after,
    ps = before ++ pattern :: after
    /\ Forall (fun p => signer_candidate t p = None) before
    /\ signer_candidate t pattern = Some signer.
Proof.
  induction ps as [|p ps IH].
  - split; [discriminate|]. intros (before & pattern & after & H & _).
    by destruct before.
  - rewrite signer_loop_cons. destruct (signer_candidate t p) as [s0|] eqn:Hp.
    + split.
      * intros [= <-]. by exists [], p, ps.
      * intros (before & pattern & after & H & Hb & Hm).
        destruct before as [|p' before]; cbn in H; simplify_eq; try congruence.
        apply Forall_cons in Hb as [Hb _]. congruence.
    + rewrite IH. split.
      * intros (before & pattern & after & -> & Hb & Hm).
        exists (p :: before), pattern, after. split_and!; try done.
        by apply Forall_cons.
      * intros (before & pattern & after & H & Hb & Hm).
        destruct before as [|p' before]; cbn in H; simplify_eq; try congruence.
        apply Forall_cons in Hb as [_ Hb]. by exists before, pattern, after.
Qed.

Lemma signer_loop_None (t : string) (ps : list string) :
  signer_loop t ps = None <-> Forall (fun p => signer_candidate t p = None) ps.
Proof.
  induction ps as [|p ps IH]; [done|].
  rewrite signer_loop_cons. destruct (signer_candidate t p) eqn:Hp.
  - split; [discriminate|]. intros [H _]%Forall_cons. congruence.
  - rewrite IH. split; [intros H; by apply Forall_cons | by intros [_ H]%Forall_cons].
Qed.

(** C9, as amended. [extract_signer_name] returns nothing unless
    [is_autographed] holds. Otherwise it tries "signed by", "autographed by"
    and "autograph by" in this order on the lower-cased name and
    description, and returns the title-cased trimmed capture of the first
    pattern that matches with a trimmed capture of more than two
    characters; a pattern that matches with a shorter capture is passed over
    and the next one is tried. A capture is a non-empty run without comma or
    parenthesis that ends at one of them or at the end of the text. The
    description "Signed by Tom Hanks, limited run" gives autographed and
    the signer "Tom Hanks". *)
Theorem extract_signer_name_first_long_capture :
  patterns = ["signed"; "autographed"; "autograph"]
  /\ (forall item, signer_search_text item =
                   PyStr.lower (item_name item +:+ " " +:+ item_description item))
  /\ (forall item, is_autographed item = false -> extract_signer_name item = None)
  /\ (forall item signer,
        is_autographed item = true ->
        (extract_signer_name item = Some signer <->
         exists before pattern after,
           patterns = before ++ pattern :: after
           /\ Forall (fun p => signer_candidate (signer_search_text item) p = None) before
           /\ signer_candidate (signer_search_text item) pattern = Some signer))
  /\ (forall item,
        is_autographed item = true ->
        (extract_signer_name item = None <->
         Forall (fun p => signer_candidate (signer_search_text item) p = None) patterns))
  /\ (forall t pattern signer,
        signer_candidate t pattern = Some signer <->
        exists g, Re.search_by pattern t = Some g
                  /\ (2 < String.length (PyStr.strip g))%nat
                  /\ signer = PyStr.title (PyStr.strip g))
  /\ (forall t pattern g,
        Re.search_by pattern t = Some g ->
        exists pre post, t = pre +:+ g +:+ post
          /\ exists skipped m, pre = skipped +:+ m /\ is_match pattern m g post)
  /\ (is_autographed (item_described "Signed by Tom Hanks, limited run") = true
      /\ extract_signer_name (item_described "Signed by Tom Hanks, limited run")
         = Some "Tom Hanks"
      /\ forall now master_hdbid,
          row_is_autographed
            (process_item now (item_described "Signed by Tom Hanks, limited run")
                          master_hdbid) = "1"
          /\ row_signed_by
               (process_item now (item_described "Signed by Tom Hanks, limited run")
                             master_hdbid) = "Tom Hanks").
Proof.
  split_and!.
  - reflexivity.
  - reflexivity.
  - intros item H. unfold extract_signer_name. by rewrite H.
  - intros item signer H. unfold extract_signer_name. rewrite H. cbn [negb].
    apply signer_loop_Some.
  - intros item H. unfold extract_signer_name. rewrite H. cbn [negb].
    apply signer_loop_None.
  - intros t pattern signer. unfold signer_candidate.
    destruct (Re.search_by pattern t) as [g|].
    + destruct (2 <? String.length (PyStr.strip g))%nat eqn:Hlen.
      * apply Nat.ltb_lt in Hlen. split.
        -- intros [= <-]. by exists g.
        -- intros (g' & [= <-] & _ & ->). done.
      * apply Nat.ltb_ge in Hlen. split; [discriminate|].
        intros (g' & [= <-] & H & _). lia.
    + split; [discriminate | intros (g' & H & _); discriminate].
  - intros t pattern g. apply search_by_spec.
  - vm_compute. reflexivity.
  - vm_compute. reflexivity.
  - intros now master_hdbid. split; vm_compute; reflexivity.
Qed.

Lemma extract_signer_name_first_long_capture_witness :
  extract_signer_name (item_described "not signed") = None.
Proof.
  apply (proj1 (proj2 (proj2 (proj2 (proj2 extract_signer_name_first_long_capture))))).
  - vm_compute. reflexivity.
  - unfold patterns.
    repeat (constructor; [vm_compute; reflexivity|]). constructor.
Defined.

(** C9, counterexample. For the description
    "Signed by Al, autographed by Tom Hanks" the first pattern matches with
    the capture "al", so the first-matching-pattern reading gives no signer;
    [extract_signer_name] goes on to the second pattern and returns
    "Tom Hanks". *)
Lemma short_capture_does_not_win :
  is_autographed two_signers = true
  /\ Re.search_by "signed" (signer_search_text two_signers) = Some "al"
  /\ first_matching_pattern_wins (signer_search_text two_signers) patterns = None
  /\ extract_signer_name two_signers = Some "Tom Hanks".
Proof. vm_compute. done. Qed.

(** ** Rows *)

Lemma is_master_of_Some (item : Item) (m : string) :
  is_master_of item (Some m) = own_master item.
Proof. reflexivity. Qed.

Lemma process_item_consistent (now : string) (item : Item) (master_hdbid : option string) :
  (forall m, master_hdbid = Some m -> m <> "") ->
  row_consistent (process_item now item master_hdbid).
Proof.
  intros Hm. unfold row_consistent, process_item.
  cbn [row_is_master_variant row_variant_type row_master_variant_hdbid].
  destruct (is_master_of item master_hdbid) eqn:His; cbn [negb].
  - split_and!; [done | done | by left | done].
  - destruct master_hdbid as [m|]; [|discriminate].
    specialize (Hm m eq_refl). destruct m; [done|]. cbn [PyStr.nonempty].
    split_and!; [done | done | by right | done].
Qed.

(** C6, as amended. Without a caller-supplied master identifier
    [process_item] classifies every record as a master, whatever master
    reference the record carries. With one, the record is a master exactly
    when it carries no master reference or a reference equal to its own
    identifier; otherwise it is a subvariant owned by the caller-supplied
    identifier (by the record's own identifier when the supplied one is
    empty), the embedded reference deciding master-ness only. *)
Theorem process_item_master_resolution :
  (forall now item,
      row_variant_type (process_item now item None) = "master"
      /\ row_is_master_variant (process_item now item None) = "1"
      /\ row_master_variant_hdbid (process_item now item None) = "")
  /\ (forall now item m,
        row_variant_type (process_item now item (Some m))
        = (if own_master item then "master" else "subvariant"))
  /\ (forall item,
        own_master item = true <->
        extract_master_variant_info item = None
        \/ extract_master_variant_info item = Some (get_hdbid item))
  /\ (forall item,
        extract_master_variant_info item = None <->
        (item_master_id item = None
         \/ exists v, item_master_id item = Some v /\ truthy v = false)
        /\ item_catalog_item_master_id item = None)
  /\ (forall now item m,
        row_master_variant_hdbid (process_item now item (Some m))
        = (if own_master item then ""
           else if PyStr.nonempty m then m else get_hdbid item))
  /\ (forall now item m,
        m <> "" -> own_master item = false ->
        row_variant_type (process_item now item (Some m)) = "subvariant"
        /\ row_master_variant_hdbid (process_item now item (Some m)) = m).
Proof.
  split_and!.
  - done.
  - intros now item m. unfold process_item. cbn [row_variant_type].
    by rewrite is_master_of_Some.
  - intros item. unfold own_master.
    destruct (extract_master_variant_info item) as [x|]; [|by split; [left|]].
    rewrite String.eqb_eq. split; [intros ->; by right | intros [?|[= ->]]; done].
  - intros item. unfold extract_master_variant_info.
    destruct (item_master_id item) as [v|].
    + destruct (truthy v) eqn:Hv.
      * split; [discriminate|]. intros [[? | (v' & [= <-] & ?)] _]; congruence.
      * destruct (item_catalog_item_master_id item); cbn.
        -- split; [discriminate | intros [_ ?]; discriminate].
        -- split; [|done]. intros _. split; [right; by exists v | done].
    + destruct (item_catalog_item_master_id item); cbn.
      * split; [discriminate | intros [_ ?]; discriminate].
      * split; [|done]. intros _. split; [by left | done].
  - intros now item m. unfold process_item. cbn [row_master_variant_hdbid].
    rewrite is_master_of_Some. by destruct (own_master item).
  - intros now item m Hm Hown. unfold process_item.
    cbn [row_master_variant_hdbid row_variant_type].
    rewrite is_master_of_Some, Hown. destruct m; done.
Qed.

Lemma process_item_master_resolution_witness :
  row_variant_type (process_item "t" foreign_master (Some "9")) = "subvariant"
  /\ row_master_variant_hdbid (process_item "t" foreign_master (Some "9")) = "9".
Proof.
  apply (proj2 (proj2 (proj2 (proj2 (proj2 process_item_master_resolution))))).
  - discriminate.
  - vm_compute. reflexivity.
Defined.

(** C6, counterexample. The record [{'id': 3, 'master_id': 7}] carries a
    master reference that differs from its identifier; processed without a
    caller-supplied master, as every page item is, it is a master. *)
Lemma foreign_master_reference_without_caller :
  extract_master_variant_info foreign_master = Some "7"
  /\ get_hdbid foreign_master = "3"
  /\ own_master foreign_master = false
  /\ row_variant_type (process_item "t" foreign_master None) = "master"
  /\ row_is_master_variant (process_item "t" foreign_master None) = "1".
Proof. vm_compute. done. Qed.

(** ** The item loop *)

Section ItemLoop.
Variable env : Env.

(** One lemma for each way through the body of the loop. *)

Lemma items_loop_skip (item : Item) (rest : list Item) (v : Vars) :
  get_hdbid item = "" ->
  items_loop env (item :: rest) v = items_loop env rest v.
Proof. intros H. cbn [items_loop]. by rewrite H. Qed.

Lemma items_loop_break (item : Item) (rest : list Item) (v : Vars) :
  get_hdbid item <> "" ->
  get_hdbid item ∈ existing_hdbids v ->
  STOP_AFTER_MATCHES <= consecutive_matches v + 1 ->
  items_loop env (item :: rest) v = (matched v, rest).
Proof.
  intros Hne Hin Hstop. cbn [items_loop].
  apply nonempty_iff in Hne. rewrite Hne. cbn [negb].
  rewrite bool_decide_eq_true_2 by done. cbn [consecutive_matches].
  apply Nat.leb_le in Hstop. by rewrite Hstop.
Qed.

Lemma items_loop_seen (item : Item) (rest : list Item) (v : Vars) :
  get_hdbid item <> "" ->
  get_hdbid item ∈ existing_hdbids v ->
  consecutive_matches v + 1 < STOP_AFTER_MATCHES ->
  items_loop env (item :: rest) v =
  items_loop env rest (process_master env item (matched v)).
Proof.
  intros Hne Hin Hstop. cbn [items_loop].
  apply nonempty_iff in Hne. rewrite Hne. cbn [negb].
  rewrite bool_decide_eq_true_2 by done. cbn [consecutive_matches].
  apply Nat.leb_gt in Hstop. by rewrite Hstop.
Qed.

Lemma items_loop_new (item : Item) (rest : list Item) (v : Vars) :
  get_hdbid item <> "" ->
  get_hdbid item ∉ existing_hdbids v ->
  items_loop env (item :: rest) v =
  items_loop env rest (process_master env item (added (get_hdbid item) v)).
Proof.
  intros Hne Hin. cbn [items_loop].
  apply nonempty_iff in Hne. rewrite Hne. cbn [negb].
  by rewrite bool_decide_eq_false_2 by done.
Qed.

(** The four cases, for case analysis on a page item. *)
Lemma items_loop_cases (item : Item) (rest : list Item) (v : Vars) :
  (get_hdbid item = "" /\ items_loop env (item :: rest) v = items_loop env rest v)
  \/ (get_hdbid item <> "" /\ (get_hdbid item ∈ existing_hdbids v)
      /\ STOP_AFTER_MATCHES <= consecutive_matches v + 1
      /\ items_loop env (item :: rest) v = (matched v, rest))
  \/ (get_hdbid item <> "" /\ (get_hdbid item ∈ existing_hdbids v)
      /\ consecutive_matches v + 1 < STOP_AFTER_MATCHES
      /\ items_loop env (item :: rest) v =
         items_loop env rest (process_master env item (matched v)))
  \/ (get_hdbid item <> "" /\ (get_hdbid item ∉ existing_hdbids v)
      /\ items_loop env (item :: rest) v =
         items_loop env rest (process_master env item (added (get_hdbid item) v))).
Proof.
  destruct (decide (get_hdbid item = "")) as [He|He].
  { left. split; [done | by apply items_loop_skip]. }
  destruct (decide (get_hdbid item ∈ existing_hdbids v)) as [Hin|Hin].
  - destruct (le_lt_dec STOP_AFTER_MATCHES (consecutive_matches v + 1)).
    + right; left. split_and!; try done. by apply items_loop_break.
    + right; right; left. split_and!; try done. by apply items_loop_seen.
  - right; right; right. split_and!; try done. by apply items_loop_new.
Qed.

(** The subvariant loop: what it leaves alone and what it appends. *)

Lemma subvariants_loop_skip (hdbid : string) (sub : Item) (rest : list Item) (v : Vars) :
  get_hdbid sub = "" ->
  subvariants_loop env hdbid (sub :: rest) v = subvariants_loop env hdbid rest v.
Proof. intros H. cbn [subvariants_loop]. by rewrite H. Qed.

Lemma subvariants_loop_matches (hdbid : string) (subs : list Item) (v : Vars) :
  consecutive_matches (subvariants_loop env hdbid subs v) = consecutive_matches v.
Proof.
  revert v. induction subs as [|sub subs IH]; intros v; [done|].
  cbn [subvariants_loop]. destruct (_ && _); by rewrite IH.
Qed.

Lemma subvariants_loop_rows (hdbid : string) (subs : list Item) (v : Vars) :
  hdbid <> "" ->
  exists rows,
    new_rows (subvariants_loop env hdbid subs v) = new_rows v ++ rows
    /\ Forall row_consistent rows.
Proof.
  intros Hne. revert v. induction subs as [|sub subs IH]; intros v.
  - exists []. by rewrite app_nil_r.
  - cbn [subvariants_loop]. destruct (_ && _); [|apply IH].
    destruct (IH {| existing_hdbids := {[get_hdbid sub]} ∪ existing_hdbids v;
                    consecutive_matches := consecutive_matches v;
                    total_new := total_new v + 1;
                    new_rows := new_rows v ++
                      [process_item (datetime_now env) sub (Some hdbid)] |})
      as (rows & -> & Hrows).
    cbn [new_rows]. eexists. rewrite <- List.app_assoc. split; [done|].
    apply Forall_cons. split; [|done].
    apply process_item_consistent. by intros m [= <-].
Qed.

Lemma process_master_matches (item : Item) (v : Vars) :
  consecutive_matches (process_master env item v) = consecutive_matches v.
Proof. unfold process_master. by rewrite subvariants_loop_matches. Qed.

Lemma process_master_rows (item : Item) (v : Vars) :
  get_hdbid item <> "" ->
  exists rows,
    new_rows (process_master env item v)
    = new_rows v ++ process_item (datetime_now env) item None :: rows
    /\ Forall row_consistent rows.
Proof.
  intros Hne. unfold process_master.
  destruct (subvariants_loop_rows (get_hdbid item)
              (fetch_subvariants env (get_hdbid item))
              {| existing_hdbids := existing_hdbids v;
                 consecutive_matches := consecutive_matches v;
                 total_new := total_new v;
                 new_rows := new_rows v ++
                   [process_item (datetime_now env) item None] |} Hne)
    as (rows & -> & Hrows).
  exists rows. cbn [new_rows]. by rewrite <- List.app_assoc.
Qed.

Lemma items_loop_rows (items : list Item) (v : Vars) :
  exists rows,
    new_rows (fst (items_loop env items v)) = new_rows v ++ rows
    /\ Forall row_consistent rows.
Proof.
  revert v. induction items as [|item items IH]; intros v.
  - exists []. by rewrite app_nil_r.
  - destruct (items_loop_cases item items v)
      as [[_ ->] | [(_ & _ & _ & ->) | [(Hne & _ & _ & ->) | (Hne & _ & ->)]]].
    + apply IH.
    + exists []. by rewrite app_nil_r.
    + destruct (IH (process_master env item (matched v))) as (rows & -> & Hrows).
      destruct (process_master_rows item (matched v) Hne) as (rows' & -> & Hrows').
      eexists. rewrite <- List.app_assoc. split; [done|].
      apply Forall_app. split; [|done]. apply Forall_cons. split; [|done].
      by apply process_item_consistent.
    + destruct (IH (process_master env item (added (get_hdbid item) v)))
        as (rows & -> & Hrows).
      destruct (process_master_rows item (added (get_hdbid item) v) Hne)
        as (rows' & -> & Hrows').
      eexists. rewrite <- List.app_assoc. split; [done|].
      apply Forall_app. split; [|done]. apply Forall_cons. split; [|done].
      by apply process_item_consistent.
Qed.

End ItemLoop.

(** ** Identifiers *)

Lemma py_str_empty (v : Value) : py_str v = "" <-> v = VStr "".
Proof.
  split; [|by intros ->].
  destruct v as [|[]|z|s]; cbn [py_str]; try discriminate; [|by intros ->].
  destruct z as [|p|p]; cbn; [discriminate| |discriminate].
  unfold NilZero.string_of_uint. destruct (Pos.to_uint p); discriminate.
Qed.

Lemma get_hdbid_empty (item : Item) :
  get_hdbid item = "" <->
  item_id item = Some (VStr "")
  \/ (item_id item = None
      /\ (item_hdbid item = None \/ item_hdbid item = Some (VStr ""))).
Proof.
  unfold get_hdbid. destruct (item_id item) as [v|].
  - rewrite py_str_empty. split; [intros ->; by left | intros [[= ->] | [? _]]; done].
  - destruct (item_hdbid item) as [v|].
    + rewrite py_str_empty. split.
      * intros ->. right. split; [done | by right].
      * intros [? | [_ [? | [= ->]]]]; done.
    + split; [|done]. intros _. right. split; [done | by left].
Qed.

(** ** The item loop, continued *)

Section Pages.
Variable env : Env.

Lemma items_loop_skip_anywhere (before : list Item) (item : Item)
    (rest : list Item) (v : Vars) :
  get_hdbid item = "" ->
  fst (items_loop env (before ++ item :: rest) v)
  = fst (items_loop env (before ++ rest) v).
Proof.
  intros He. revert v. induction before as [|x before IH]; intros v.
  - cbn [app]. by rewrite items_loop_skip.
  - rewrite <- !app_comm_cons. cbn [items_loop].
    destruct (negb _); [apply IH|].
    destruct (bool_decide _); [|apply IH].
    destruct (_ <=? _)%nat; [done | apply IH].
Qed.

Lemma subvariants_loop_skip_anywhere (hdbid : string) (before : list Item)
    (sub : Item) (rest : list Item) (v : Vars) :
  get_hdbid sub = "" ->
  subvariants_loop env hdbid (before ++ sub :: rest) v
  = subvariants_loop env hdbid (before ++ rest) v.
Proof.
  intros He. revert v. induction before as [|x before IH]; intros v.
  - by apply subvariants_loop_skip.
  - rewrite <- !app_comm_cons. cbn [subvariants_loop]. rewrite !IH. done.
Qed.

Lemma items_loop_rest_nil (items : list Item) (v : Vars) :
  consecutive_matches (fst (items_loop env items v)) < STOP_AFTER_MATCHES ->
  snd (items_loop env items v) = [].
Proof.
  revert v. induction items as [|item items IH]; intros v; [done|].
  destruct (items_loop_cases env item items v)
    as [[He H] | [(Hne & Hin & Hstop & H) | [(Hne & Hin & Hstop & H) | (Hne & Hin & H)]]];
    rewrite H; try apply IH.
  cbn [fst matched consecutive_matches]. intros Hlt. lia.
Qed.

Lemma items_loop_rest_length (items : list Item) (v : Vars) :
  length (snd (items_loop env items v)) <= length items.
Proof.
  revert v. induction items as [|item items IH]; intros v; [done|].
  destruct (items_loop_cases env item items v)
    as [[He H] | [(Hne & Hin & Hstop & H) | [(Hne & Hin & Hstop & H) | (Hne & Hin & H)]]];
    rewrite H; cbn [snd length]; try (etrans; [apply IH | lia]).
  lia.
Qed.




(** ** One iteration of the outer loop *)

Lemma main_step_page (s : State) (items : list Item) :
  fetch_catalog_items env (offset s) BATCH_SIZE = Some items ->
  items <> [] ->
  main_step env s =
  (let v := fst (items_loop env items (page_vars s)) in
   let progress' :=
     {| last_index := (offset s + Z.of_nat (length items))%Z;
        total_scraped := (total_scraped (progress s) + Z.of_nat (length items))%Z;
        last_scrape_date := Some (datetime_now env) |} in
   ({| disk := {| csv_file := csv_file (disk s) ++ new_rows v;
                  progress_file := Some progress' |};
       progress := progress';
       offset := (offset s + Z.of_nat (length items))%Z;
       seen := existing_hdbids v;
       matches := consecutive_matches v;
       new_count := total_new v;
       total_updated := total_updated s + length (new_rows v) |},
    negb (STOP_AFTER_MATCHES <=? consecutive_matches v)%nat)).
Proof.
  intros Hfetch Hne. unfold main_step. rewrite Hfetch.
  destruct items as [|item items]; [done|]. fold (page_vars s).
  cbn zeta. destruct (new_rows _) eqn:Hrows.
  - unfold save_progress. rewrite app_nil_r. cbn [length]. by rewrite Nat.add_0_r.
  - reflexivity.
Qed.

Lemma main_step_rows (s : State) :
  exists rows,
    csv_file (disk (fst (main_step env s))) = csv_file (disk s) ++ rows
    /\ Forall row_consistent rows.
Proof.
  destruct (fetch_catalog_items env (offset s) BATCH_SIZE) as [items|] eqn:Hfetch.
  - destruct (decide (items = [])) as [->|Hne].
    + unfold main_step. rewrite Hfetch. exists []. by rewrite app_nil_r.
    + rewrite (main_step_page s items Hfetch Hne). cbn [fst disk csv_file].
      destruct (items_loop_rows env items (page_vars s)) as (rows & Hrows & Hall).
      exists rows. by rewrite Hrows.
  - unfold main_step. rewrite Hfetch. exists []. by rewrite app_nil_r.
Qed.

Lemma main_loop_rows (fuel : nat) (s s' : State) :
  main_loop env fuel s = Some s' ->
  exists rows,
    csv_file (disk s') = csv_file (disk s) ++ rows /\ Forall row_consistent rows.
Proof.
  revert s. induction fuel as [|fuel IH]; intros s; [discriminate|].
  cbn [main_loop]. destruct (main_step_rows s) as (rows1 & H1 & Hall1).
  destruct (main_step env s) as [s1 go_on]. cbn [fst] in H1.
  destruct go_on.
  - intros (rows2 & H2 & Hall2)%IH. exists (rows1 ++ rows2).
    rewrite H2, H1, <- List.app_assoc. split; [done | by apply Forall_app].
  - intros [= <-]. by exists rows1.
Qed.



End Pages.

(** ** The loops of [main] *)

(** C5. Every row [process_item] produces for [main] has consistent variant
    columns: [is_master_variant] is "1" exactly when [variant_type] is
    "master" and "0" exactly when it is "subvariant", and
    [master_variant_hdbid] is non-empty exactly when [variant_type] is
    "subvariant". This holds for a row processed without a master, for a row
    processed under a non-empty master identifier, for the rows one
    iteration of the outer loop appends to the CSV file, and for the rows a
    whole run appends. *)
Theorem produced_rows_consistent :
  (forall now item, row_consistent (process_item now item None))
  /\ (forall now item m, m <> "" -> row_consistent (process_item now item (Some m)))
  /\ (forall env s,
        exists rows,
          csv_file (disk (fst (main_step env s))) = csv_file (disk s) ++ rows
          /\ Forall row_consistent rows)
  /\ (forall env fuel d d',
        main env fuel d = Some d' ->
        exists rows, csv_file d' = csv_file d ++ rows /\ Forall row_consistent rows).
Proof.
  split_and!.
  - intros now item. by apply process_item_consistent.
  - intros now item m Hm. apply process_item_consistent. by intros ? [= <-].
  - apply main_step_rows.
  - intros env fuel d d'. unfold main.
    destruct (main_loop env fuel (initial_state d)) as [s|] eqn:Hloop; [|discriminate].
    intros [= <-]. apply main_loop_rows in Hloop. exact Hloop.
Qed.

Lemma produced_rows_consistent_witness :
  exists d', family_run = Some d'
             /\ exists rows, csv_file d' = csv_file empty_disk ++ rows
                             /\ Forall row_consistent rows.
Proof.
  destruct family_run as [d'|] eqn:Hrun; [|vm_compute in Hrun; discriminate].
  exists d'. split; [done|].
  exact (proj2 (proj2 (proj2 produced_rows_consistent)) family_env 2 empty_disk d' Hrun).
Defined.

(** C3, as amended. After a fetched non-empty page the cursor has grown by
    the number of raw items of the page, subvariants not counted, so
    strictly; the progress file holds the new cursor, and [total_scraped]
    has grown by the same number. The loop went through at most that many
    items, and through all of them when the outer loop goes on. *)
Theorem offset_advances_by_page_length (env : Env) (s : State) (items : list Item) :
  fetch_catalog_items env (offset s) BATCH_SIZE = Some items ->
  items <> [] ->
  offset (fst (main_step env s)) = (offset s + Z.of_nat (length items))%Z
  /\ (offset s < offset (fst (main_step env s)))%Z
  /\ progress_file (disk (fst (main_step env s))) = Some (progress (fst (main_step env s)))
  /\ last_index (progress (fst (main_step env s))) = offset (fst (main_step env s))
  /\ total_scraped (progress (fst (main_step env s)))
     = (total_scraped (progress s) + Z.of_nat (length items))%Z
  /\ consumed env items (page_vars s) <= length items
  /\ (snd (main_step env s) = true -> consumed env items (page_vars s) = length items).
Proof.
  intros Hfetch Hne. rewrite (main_step_page env s items Hfetch Hne).
  cbn [fst snd offset disk progress progress_file last_index total_scraped].
  split_and!; try done.
  - destruct items; [done|]. cbn [length]. lia.
  - unfold consumed. lia.
  - intros Hgo. apply negb_true_iff, Nat.leb_gt in Hgo.
    unfold consumed. by rewrite items_loop_rest_nil, Nat.sub_0_r.
Qed.

Lemma offset_advances_by_page_length_witness :
  offset (fst (main_step caught_up_env (initial_state caught_up_disk))) = 2%Z
  /\ consumed caught_up_env (items_from 1 2) (page_vars (initial_state caught_up_disk)) = 2.
Proof.
  destruct (offset_advances_by_page_length caught_up_env (initial_state caught_up_disk)
              (items_from 1 2)) as (H1 & _ & _ & _ & _ & _ & H2).
  - vm_compute. reflexivity.
  - discriminate.
  - split; [exact H1|]. apply H2. vm_compute. reflexivity.
Defined.

(** C3, counterexample. The store holds items 1 to 52 and has no progress
    file. The first page, items 1 and 2, leaves the counter at 2. On the
    second page, items 3 to 52, the counter reaches 50 at item 50: the loop
    went through 48 items and never reached items 51 and 52, yet the cursor
    moves by 50, from 2 to 52. *)
Lemma threshold_halt_leaves_page_unfinished :
  main_loop caught_up_env 1 (initial_state caught_up_disk) = None
  /\ offset caught_up_state = 2%Z
  /\ matches caught_up_state = 2
  /\ fetch_catalog_items caught_up_env (offset caught_up_state) BATCH_SIZE
     = Some (items_from 3 50)
  /\ matches (fst (main_step caught_up_env caught_up_state)) = 50
  /\ snd (items_loop caught_up_env (items_from 3 50) (page_vars caught_up_state))
     = items_from 51 2
  /\ consumed caught_up_env (items_from 3 50) (page_vars caught_up_state) = 48
  /\ (offset (fst (main_step caught_up_env caught_up_state)) - offset caught_up_state)%Z
     = 50%Z
  /\ option_map last_index
       (progress_file (disk (fst (main_step caught_up_env caught_up_state))))
     = Some 52%Z.
Proof. vm_compute. done. Qed.



(** C10. The identifier of an item is empty exactly when its [id] is the
    empty string, or [id] is missing and [hdbid] is missing or the empty
    string. A page item with an empty identifier leaves every variable of
    the item loop as it was, and a page with it is processed as the page
    without it; the same holds for a subvariant in the subvariant loop. *)
Theorem empty_identifier_skipped :
  (forall item,
      get_hdbid item = "" <->
      item_id item = Some (VStr "")
      \/ (item_id item = None
          /\ (item_hdbid item = None \/ item_hdbid item = Some (VStr ""))))
  /\ (forall env item v, get_hdbid item = "" -> items_loop env [item] v = (v, []))
  /\ (forall env before item rest v,
        get_hdbid item = "" ->
        fst (items_loop env (before ++ item :: rest) v)
        = fst (items_loop env (before ++ rest) v))
  /\ (forall env hdbid sub v,
        get_hdbid sub = "" -> subvariants_loop env hdbid [sub] v = v)
  /\ (forall env hdbid before sub rest v,
        get_hdbid sub = "" ->
        subvariants_loop env hdbid (before ++ sub :: rest) v
        = subvariants_loop env hdbid (before ++ rest) v).
Proof.
  split_and!.
  - apply get_hdbid_empty.
  - intros env item v He. by rewrite items_loop_skip.
  - intros env. apply items_loop_skip_anywhere.
  - intros env hdbid sub v He. by rewrite subvariants_loop_skip.
  - intros env. apply subvariants_loop_skip_anywhere.
Qed.

Lemma empty_identifier_skipped_witness :
  items_loop family_env [empty_item] (page_vars (initial_state empty_disk))
  = (page_vars (initial_state empty_disk), [])
  /\ subvariants_loop family_env "10" [empty_item] (page_vars (initial_state empty_disk))
     = page_vars (initial_state empty_disk).
Proof.
  split.
  - apply (proj1 (proj2 empty_identifier_skipped)). reflexivity.
  - apply (proj1 (proj2 (proj2 (proj2 empty_identifier_skipped)))). reflexivity.
Defined.

(** C1, at the failing input. The listing shows item 1 twice and the store
    is empty. The second occurrence is known, the counter goes to 1, and the
    loop body goes on to [process_item] and appends a second row: the CSV
    file ends with two rows of identifier "1". *)
Lemma seen_page_item_is_written_again :
  matches (fst (main_step twice_env (initial_state empty_disk))) = 1
  /\ stored_hdbids (main twice_env 2 empty_disk) = Some ["1"; "1"]
  /\ option_map (occurrences "1") (main twice_env 2 empty_disk) = Some 2.
Proof. vm_compute. done. Qed.

(** C2, at the failing inputs. A first run stores item 10; before the
    second run one newer item is published, which moves item 10 to the
    offset the cursor points at, and the second run stores item 10 again.
    Within one run, a subvariant stored under its master and then met as a
    page item is stored twice as well. *)
Lemma seen_identifier_is_stored_twice :
  stored_hdbids first_run = Some ["10"]
  /\ stored_hdbids second_run = Some ["10"; "10"]
  /\ stored_hdbids family_run = Some ["10"; "11"; "11"]
  /\ option_map (occurrences "11") family_run = Some 2.
Proof. vm_compute. done. Qed.

(** * Further properties *)

(** ** The identifiers of the CSV file *)

Lemma row_hdbids_elem (rows : list Row) (h : string) :
  h ∈ row_hdbids rows <-> h <> "" /\ exists r, r ∈ rows /\ row_hdbid r = h.
Proof.
  unfold row_hdbids. rewrite elem_of_list_to_set, list_elem_of_filter, list_elem_of_fmap.
  rewrite nonempty_iff. split.
  - intros (Hne & r & -> & Hr). split; [done|]. by exists r.
  - intros (Hne & r & Hr & <-). split; [done|]. by exists r.
Qed.

Lemma row_hdbids_app (rows1 rows2 : list Row) :
  row_hdbids (rows1 ++ rows2) = row_hdbids rows1 ∪ row_hdbids rows2.
Proof.
  unfold row_hdbids. by rewrite map_app, filter_app, list_to_set_app_L.
Qed.

Lemma row_hdbids_snoc (rows : list Row) (r : Row) :
  row_hdbid r <> "" -> row_hdbids (rows ++ [r]) = row_hdbids rows ∪ {[row_hdbid r]}.
Proof.
  intros Hne. rewrite row_hdbids_app. f_equal. unfold row_hdbids.
  cbn [map]. rewrite filter_cons_True by (by apply nonempty_iff).
  rewrite filter_nil. cbn. set_solver.
Qed.

(** ** What the loops keep *)

Section Invariants.
Variable env : Env.

(** The known identifiers are those known before and those of the batch. *)
Lemma subvariants_loop_existing (hdbid : string) (subs : list Item) (v : Vars) (E : gset string) :
  existing_hdbids v = E ∪ row_hdbids (new_rows v) ->
  existing_hdbids (subvariants_loop env hdbid subs v)
  = E ∪ row_hdbids (new_rows (subvariants_loop env hdbid subs v)).
Proof.
  revert v. induction subs as [|sub subs IH]; intros v Hv; [done|].
  cbn [subvariants_loop].
  destruct (PyStr.nonempty (get_hdbid sub)) eqn:Hne; cbn [andb]; [|by apply IH].
  destruct (negb _); [|by apply IH].
  apply IH. cbn [existing_hdbids new_rows].
  rewrite row_hdbids_snoc by (by apply nonempty_iff). rewrite Hv.
  cbn [process_item row_hdbid]. set_solver.
Qed.

Lemma process_master_existing (item : Item) (v : Vars) (E : gset string) :
  get_hdbid item <> "" ->
  existing_hdbids v = E ∪ row_hdbids (new_rows v) ∪ {[get_hdbid item]} ->
  existing_hdbids (process_master env item v)
  = E ∪ row_hdbids (new_rows (process_master env item v)).
Proof.
  intros Hne Hv. unfold process_master. apply subvariants_loop_existing.
  cbn [existing_hdbids new_rows]. rewrite row_hdbids_snoc by done.
  cbn [process_item row_hdbid]. rewrite Hv. set_solver.
Qed.

Lemma items_loop_existing (items : list Item) (v : Vars) (E : gset string) :
  existing_hdbids v = E ∪ row_hdbids (new_rows v) ->
  existing_hdbids (fst (items_loop env items v))
  = E ∪ row_hdbids (new_rows (fst (items_loop env items v))).
Proof.
  revert v. induction items as [|item items IH]; intros v Hv; [done|].
  destruct (items_loop_cases env item items v)
    as [[He H] | [(Hne & Hin & Hstop & H) | [(Hne & Hin & Hstop & H) | (Hne & Hin & H)]]];
    rewrite H.
  - by apply IH.
  - done.
  - apply IH. apply process_master_existing; [done|].
    cbn [matched existing_hdbids new_rows]. rewrite Hv in Hin |- *. set_solver.
  - apply IH. apply process_master_existing; [done|].
    cbn [added existing_hdbids new_rows]. rewrite Hv. set_solver.
Qed.

Lemma main_step_known (s : State) :
  exists rows,
    csv_file (disk (fst (main_step env s))) = csv_file (disk s) ++ rows
    /\ seen (fst (main_step env s)) = seen s ∪ row_hdbids rows.
Proof.
  destruct (fetch_catalog_items env (offset s) BATCH_SIZE) as [items|] eqn:Hfetch.
  - destruct (decide (items = [])) as [->|Hne].
    + unfold main_step. rewrite Hfetch. exists []. cbn [fst].
      rewrite app_nil_r. unfold row_hdbids. cbn. set_solver.
    + rewrite (main_step_page env s items Hfetch Hne). cbn [fst seen disk csv_file].
      eexists. split; [reflexivity|]. apply items_loop_existing.
      cbn [page_vars existing_hdbids new_rows]. unfold row_hdbids. cbn. set_solver.
  - unfold main_step. rewrite Hfetch. exists []. cbn [fst].
    rewrite app_nil_r. unfold row_hdbids. cbn. set_solver.
Qed.

Lemma main_loop_known (fuel : nat) (s s' : State) :
  main_loop env fuel s = Some s' ->
  exists rows,
    csv_file (disk s') = csv_file (disk s) ++ rows
    /\ seen s' = seen s ∪ row_hdbids rows.
Proof.
  revert s. induction fuel as [|fuel IH]; intros s; [discriminate|].
  cbn [main_loop]. destruct (main_step_known s) as (rows1 & Hc1 & Hs1).
  destruct (main_step env s) as [s1 go_on]. cbn [fst] in Hc1, Hs1.
  destruct go_on.
  - intros (rows2 & Hc2 & Hs2)%IH. exists (rows1 ++ rows2).
    rewrite Hc2, Hc1, Hs2, Hs1, row_hdbids_app, <- List.app_assoc.
    split; [done | set_solver].
  - intros [= <-]. by exists rows1.
Qed.
End Invariants.

(** X2. When the outer loop ends, the identifiers held in memory are those
    held when it started together with the non-empty identifiers of the
    rows it appended to the CSV file: every identifier the run adds to the
    set belongs to a row it writes, and every row it writes has its
    identifier in the set. *)
Theorem known_identifiers_follow_appended_rows (env : Env) (fuel : nat)
    (s s' : State) :
  main_loop env fuel s = Some s' ->
  exists rows,
    csv_file (disk s') = csv_file (disk s) ++ rows
    /\ seen s' = seen s ∪ row_hdbids rows.
Proof. apply main_loop_known. Qed.

Lemma known_identifiers_follow_appended_rows_witness :
  exists s',
    main_loop family_env 2 (initial_state empty_disk) = Some s'
    /\ exists rows,
         csv_file (disk s') = csv_file (disk (initial_state empty_disk)) ++ rows
         /\ seen s' = seen (initial_state empty_disk) ∪ row_hdbids rows.
Proof.
  destruct (main_loop family_env 2 (initial_state empty_disk)) as [s'|] eqn:Hloop;
    [|vm_compute in Hloop; discriminate].
  exists s'. split; [done|].
  exact (known_identifiers_follow_appended_rows family_env 2
           (initial_state empty_disk) s' Hloop).
Defined.

(** ** Counting *)

Section Counting.
Variable env : Env.

Lemma counted_refl (v : Vars) : counted v v.
Proof. unfold counted. split_and!; done. Qed.

Lemma counted_trans (v1 v2 v3 : Vars) : counted v1 v2 -> counted v2 v3 -> counted v1 v3.
Proof.
  unfold counted. intros (A1 & B1 & C1 & D1) (A2 & B2 & C2 & D2).
  split_and!; [lia | lia | lia | set_solver].
Qed.

Lemma size_add_fresh (h : string) (E : gset string) :
  h ∉ E -> size ({[h]} ∪ E) = S (size E).
Proof.
  intros Hh. rewrite size_union by set_solver. by rewrite size_singleton.
Qed.

Lemma subvariants_loop_counted (hdbid : string) (subs : list Item) (v : Vars) :
  counted v (subvariants_loop env hdbid subs v).
Proof.
  revert v. induction subs as [|sub subs IH]; intros v; [apply counted_refl|].
  cbn [subvariants_loop].
  destruct (PyStr.nonempty (get_hdbid sub)) eqn:Hne; cbn [andb]; [|apply IH].
  destruct (bool_decide (get_hdbid sub ∈ existing_hdbids v)) eqn:Hin; cbn [negb];
    [apply IH|].
  apply bool_decide_eq_false in Hin.
  eapply counted_trans; [|apply IH].
  unfold counted. cbn [existing_hdbids total_new new_rows].
  rewrite size_add_fresh by done. rewrite length_app. cbn [length].
  split_and!; [lia | lia | lia | set_solver].
Qed.

Lemma process_master_counted (item : Item) (v : Vars) :
  size (existing_hdbids (process_master env item v)) + total_new v
  = size (existing_hdbids v) + total_new (process_master env item v)
  /\ total_new (process_master env item v) + S (length (new_rows v))
     <= total_new v + length (new_rows (process_master env item v))
  /\ total_new v <= total_new (process_master env item v)
  /\ existing_hdbids v ⊆ existing_hdbids (process_master env item v).
Proof.
  unfold process_master.
  destruct (subvariants_loop_counted (get_hdbid item)
              (fetch_subvariants env (get_hdbid item))
              {| existing_hdbids := existing_hdbids v;
                 consecutive_matches := consecutive_matches v;
                 total_new := total_new v;
                 new_rows := new_rows v ++ [process_item (datetime_now env) item None] |})
    as (A & B & C & D).
  cbn [existing_hdbids total_new new_rows] in A, B, C, D.
  rewrite length_app in B. cbn [length] in B.
  split_and!; [done | lia | done | done].
Qed.

Lemma items_loop_counted (items : list Item) (v : Vars) :
  counted v (fst (items_loop env items v)).
Proof.
  revert v. induction items as [|item items IH]; intros v; [apply counted_refl|].
  destruct (items_loop_cases env item items v)
    as [[He H] | [(Hne & Hin & Hstop & H) | [(Hne & Hin & Hstop & H) | (Hne & Hin & H)]]];
    rewrite H.
  - apply IH.
  - unfold counted. cbn. split_and!; done.
  - eapply counted_trans; [|apply IH].
    destruct (process_master_counted item (matched v)) as (A & B & C & D).
    cbn [matched existing_hdbids total_new new_rows] in A, B, C, D.
    unfold counted. split_and!; [done | lia | done | done].
  - eapply counted_trans; [|apply IH].
    destruct (process_master_counted item (added (get_hdbid item) v)) as (A & B & C & D).
    cbn [added existing_hdbids total_new new_rows] in A, B, C, D.
    rewrite size_add_fresh in A by done.
    unfold counted. split_and!; [lia | lia | lia | set_solver].
Qed.

Lemma tallied_refl (s : State) : tallied s s.
Proof. unfold tallied. split_and!; done. Qed.

Lemma main_step_tallied (s : State) : tallied s (fst (main_step env s)).
Proof.
  destruct (fetch_catalog_items env (offset s) BATCH_SIZE) as [items|] eqn:Hfetch.
  - destruct (decide (items = [])) as [->|Hne].
    + unfold main_step. rewrite Hfetch. apply tallied_refl.
    + rewrite (main_step_page env s items Hfetch Hne). cbn zeta.
      destruct (items_loop_counted items (page_vars s)) as (A & B & C & D).
      cbn [page_vars existing_hdbids total_new new_rows length] in A, B, C, D.
      unfold tallied. cbn [fst seen new_count total_updated disk csv_file].
      rewrite length_app. split_and!; [done | lia | lia | done | done].
  - unfold main_step. rewrite Hfetch. apply tallied_refl.
Qed.

Lemma main_loop_tallied (fuel : nat) (s s' : State) :
  main_loop env fuel s = Some s' -> tallied s s'.
Proof.
  revert s. induction fuel as [|fuel IH]; intros s; [discriminate|].
  cbn [main_loop]. pose proof (main_step_tallied s) as H1.
  destruct (main_step env s) as [s1 go_on]. cbn [fst] in H1.
  destruct go_on.
  - intros H2%IH. unfold tallied in *.
    destruct H1 as (A1 & B1 & C1 & D1 & E1), H2 as (A2 & B2 & C2 & D2 & E2).
    split_and!; [lia | lia | lia | lia | set_solver].
  - by intros [= <-].
Qed.
End Counting.

(** X3. Over any number of iterations of the main loop the set of known
    identifiers only grows, [total_new] never decreases, and the set grew by
    exactly as many identifiers as [total_new] grew. *)
Theorem total_new_counts_added_identifiers (env : Env) (fuel : nat) (s s' : State) :
  main_loop env fuel s = Some s' ->
  seen s ⊆ seen s'
  /\ new_count s <= new_count s'
  /\ size (seen s') = size (seen s) + (new_count s' - new_count s).
Proof.
  intros (A & B & C & D & E)%main_loop_tallied. split_and!; [done | done | lia].
Qed.

Lemma total_new_counts_added_identifiers_witness :
  exists s', main_loop family_env 2 (initial_state empty_disk) = Some s'
             /\ size (seen s') = size (seen (initial_state empty_disk))
                                 + (new_count s' - new_count (initial_state empty_disk)).
Proof.
  destruct (main_loop family_env 2 (initial_state empty_disk)) as [s'|] eqn:Hrun;
    [|vm_compute in Hrun; discriminate].
  exists s'. split; [done|].
  apply (total_new_counts_added_identifiers family_env 2 _ _ Hrun).
Defined.

(** X4. Over any number of iterations of the main loop the CSV file grew by
    exactly as many rows as [total_updated] grew, [total_updated] never
    decreases, and it grew by at least as much as [total_new]. *)
Theorem total_updated_counts_appended_rows (env : Env) (fuel : nat) (s s' : State) :
  main_loop env fuel s = Some s' ->
  length (csv_file (disk s')) = length (csv_file (disk s))
                                + (total_updated s' - total_updated s)
  /\ total_updated s <= total_updated s'
  /\ new_count s' - new_count s <= total_updated s' - total_updated s.
Proof.
  intros (A & B & C & D & E)%main_loop_tallied. split_and!; lia.
Qed.

Lemma total_updated_counts_appended_rows_witness :
  exists s', main_loop family_env 2 (initial_state empty_disk) = Some s'
             /\ new_count s' - new_count (initial_state empty_disk)
                <= total_updated s' - total_updated (initial_state empty_disk).
Proof.
  destruct (main_loop family_env 2 (initial_state empty_disk)) as [s'|] eqn:Hrun;
    [|vm_compute in Hrun; discriminate].
  exists s'. split; [done|].
  apply (total_updated_counts_appended_rows family_env 2 _ _ Hrun).
Defined.

(** ** How a run ends *)

(** X5. When the request for the page at the cursor fails, the iteration
    changes nothing and the loop goes on at the same cursor; as the same
    request keeps failing, the loop does not end within any number of
    iterations. *)
Theorem failed_fetch_is_retried_forever (env : Env) (s : State) :
  fetch_catalog_items env (offset s) BATCH_SIZE = None ->
  main_step env s = (s, true) /\ forall fuel, main_loop env fuel s = None.
Proof.
  intros Hfetch.
  assert (Hstep : main_step env s = (s, true)) by (unfold main_step; by rewrite Hfetch).
  split; [done|]. intros fuel. induction fuel as [|fuel IH]; [done|].
  cbn [main_loop]. by rewrite Hstep.
Qed.

Lemma failed_fetch_is_retried_forever_witness :
  main_loop failing_env 1000 (initial_state empty_disk) = None.
Proof.
  apply (failed_fetch_is_retried_forever failing_env (initial_state empty_disk)).
  reflexivity.
Defined.

(** X6. When the page at the saved cursor is empty, the run ends in its
    first iteration: the rows of the CSV file are left as they were and the
    progress written is the progress loaded. *)
Theorem empty_page_ends_run_without_rows (env : Env) (fuel : nat) (d : Disk) :
  fetch_catalog_items env (last_index (load_progress d)) BATCH_SIZE = Some [] ->
  main env (S fuel) d = Some {| csv_file := csv_file d;
                                progress_file := Some (load_progress d) |}.
Proof.
  intros Hfetch. unfold main. cbn [main_loop]. unfold main_step.
  cbn [initial_state offset]. by rewrite Hfetch.
Qed.

Lemma empty_page_ends_run_without_rows_witness :
  main (listing [] no_subvariants) 1 empty_disk
  = Some {| csv_file := [];
            progress_file := Some {| last_index := 0; total_scraped := 0;
                                     last_scrape_date := None |} |}.
Proof.
  apply (empty_page_ends_run_without_rows (listing [] no_subvariants) 0 empty_disk).
  reflexivity.
Defined.

Lemma main_loop_terminates (env : Env) (N : Z) :
  (forall o, fetch_catalog_items env o BATCH_SIZE <> None) ->
  (forall o, (N <= o)%Z -> fetch_catalog_items env o BATCH_SIZE = Some []) ->
  forall k s, Z.to_nat (N - offset s) <= k -> exists s', main_loop env (S k) s = Some s'.
Proof.
  intros Hsome Hend k. induction k as [|k IH]; intros s Hk.
  - exists s. cbn [main_loop]. unfold main_step. rewrite Hend by lia. done.
  - destruct (fetch_catalog_items env (offset s) BATCH_SIZE) as [items|] eqn:Hfetch;
      [|by apply Hsome in Hfetch].
    destruct (decide (items = [])) as [->|Hne].
    + exists s. cbn [main_loop]. unfold main_step. by rewrite Hfetch.
    + assert (Hlt : (offset s < N)%Z).
      { destruct (Z_lt_le_dec (offset s) N) as [?|Hle]; [done|].
        rewrite (Hend _ Hle) in Hfetch. by injection Hfetch as <-. }
      change (main_loop env (S (S k)) s)
        with (let (s', go_on) := main_step env s in
              if go_on then main_loop env (S k) s' else Some s').
      rewrite (main_step_page env s items Hfetch Hne). cbn zeta.
      destruct (negb _); [|by eexists].
      apply IH. cbn [offset]. destruct items; [done|]. cbn [length]. lia.
Qed.

(** X7. When no page request fails and every page from the offset [N] on is
    empty, the run ends, within one iteration more than the distance from
    the saved cursor to [N]. *)
Theorem main_terminates_on_finite_catalog (env : Env) (N : Z) (d : Disk) :
  (forall o, fetch_catalog_items env o BATCH_SIZE <> None) ->
  (forall o, (N <= o)%Z -> fetch_catalog_items env o BATCH_SIZE = Some []) ->
  exists d', main env (S (Z.to_nat (N - last_index (load_progress d)))) d = Some d'.
Proof.
  intros Hsome Hend. unfold main.
  destruct (main_loop_terminates env N Hsome Hend
              (Z.to_nat (N - last_index (load_progress d))) (initial_state d))
    as (s' & ->); [done|]. by eexists.
Qed.

Lemma main_terminates_on_finite_catalog_witness :
  exists d', main family_env (S (Z.to_nat (2 - last_index (load_progress empty_disk))))
                  empty_disk = Some d'.
Proof.
  apply (main_terminates_on_finite_catalog family_env 2 empty_disk).
  - intros o. cbn. discriminate.
  - intros o Ho. cbn. rewrite drop_ge by (cbn [length]; lia). reflexivity.
Defined.

(** ** The cursor *)

Lemma main_step_lockstep (env : Env) (c : Z) (s : State) :
  in_lockstep c s ->
  in_lockstep c (fst (main_step env s))
  /\ (offset s <= offset (fst (main_step env s)))%Z.
Proof.
  intros [H1 H2].
  destruct (fetch_catalog_items env (offset s) BATCH_SIZE) as [items|] eqn:Hfetch.
  - destruct (decide (items = [])) as [->|Hne].
    + unfold main_step. rewrite Hfetch. cbn [fst]. by split; [split | lia].
    + rewrite (main_step_page env s items Hfetch Hne). cbn zeta.
      unfold in_lockstep. cbn [fst progress offset last_index total_scraped].
      split_and!; [done | lia | lia].
  - unfold main_step. rewrite Hfetch. cbn [fst]. by split; [split | lia].
Qed.

Lemma main_loop_lockstep (env : Env) (c : Z) (fuel : nat) (s s' : State) :
  in_lockstep c s ->
  main_loop env fuel s = Some s' ->
  in_lockstep c s' /\ (offset s <= offset s')%Z.
Proof.
  revert s. induction fuel as [|fuel IH]; intros s Hs; [discriminate|].
  cbn [main_loop]. pose proof (main_step_lockstep env c s Hs) as [H1 H2].
  destruct (main_step env s) as [s1 go_on]. cbn [fst] in H1, H2.
  destruct go_on.
  - intros [H3 H4]%IH; [|done]. split; [done | lia].
  - by intros [= <-].
Qed.

Lemma load_save_progress (p : Progress) (d : Disk) :
  load_progress (save_progress p d) = p.
Proof. reflexivity. Qed.

(** X8. A run that ends leaves a progress file. Its cursor is not before
    the cursor the run started from, and [total_scraped] moved by as much as
    the cursor did. *)
Theorem cursor_only_moves_forward (env : Env) (fuel : nat) (d d' : Disk) :
  main env fuel d = Some d' ->
  progress_file d' = Some (load_progress d')
  /\ (last_index (load_progress d) <= last_index (load_progress d'))%Z
  /\ (total_scraped (load_progress d') - last_index (load_progress d')
      = total_scraped (load_progress d) - last_index (load_progress d))%Z.
Proof.
  unfold main.
  destruct (main_loop env fuel (initial_state d)) as [s'|] eqn:Hloop; [|discriminate].
  intros [= <-].
  destruct (main_loop_lockstep env
              (total_scraped (load_progress d) - last_index (load_progress d))
              fuel (initial_state d) s') as [[H1 H2] H3]; [done | done |].
  cbn [initial_state offset] in H3.
  rewrite !load_save_progress. cbn [save_progress progress_file].
  split_and!; [done | lia | lia].
Qed.

Lemma cursor_only_moves_forward_witness :
  exists d', family_run = Some d'
             /\ (last_index (load_progress empty_disk) <= last_index (load_progress d'))%Z.
Proof.
  destruct family_run as [d'|] eqn:Hrun; [|vm_compute in Hrun; discriminate].
  exists d'. split; [done|].
  apply (cursor_only_moves_forward family_env 2 empty_disk d' Hrun).
Defined.

(** ** Subvariants *)

Lemma process_item_owned (now : string) (item : Item) (m : string) :
  m <> "" -> owned_by m (process_item now item (Some m)).
Proof.
  intros Hm. unfold owned_by, process_item.
  cbn [row_variant_type row_master_variant_hdbid]. rewrite is_master_of_Some.
  destruct (own_master item); cbn [negb]; [by right | left].
  split; [done|]. by destruct m.
Qed.

Lemma subvariants_loop_appended (env : Env) (hdbid : string) (subs : list Item) (v : Vars) :
  exists rows,
    new_rows (subvariants_loop env hdbid subs v) = new_rows v ++ rows
    /\ NoDup (map row_hdbid rows)
    /\ Forall (fun r => row_hdbid r <> "" /\ row_hdbid r ∉ existing_hdbids v) rows
    /\ existing_hdbids (subvariants_loop env hdbid subs v)
       = list_to_set (map row_hdbid rows) ∪ existing_hdbids v
    /\ (hdbid <> "" -> Forall (owned_by hdbid) rows).
Proof.
  revert v. induction subs as [|sub subs IH]; intros v.
  - exists []. cbn. rewrite app_nil_r. split_and!; try done; [constructor | set_solver].
  - cbn [subvariants_loop].
    destruct (PyStr.nonempty (get_hdbid sub)) eqn:Hne; cbn [andb]; [|apply IH].
    destruct (bool_decide (get_hdbid sub ∈ existing_hdbids v)) eqn:Hin; cbn [negb];
      [apply IH|].
    apply bool_decide_eq_false in Hin. apply nonempty_iff in Hne.
    destruct (IH {| existing_hdbids := {[get_hdbid sub]} ∪ existing_hdbids v;
                    consecutive_matches := consecutive_matches v;
                    total_new := total_new v + 1;
                    new_rows := new_rows v ++
                      [process_item (datetime_now env) sub (Some hdbid)] |})
      as (rows & Hrows & Hnd & Hall & Hex & Hown).
    cbn [existing_hdbids new_rows] in Hrows, Hall, Hex.
    exists (process_item (datetime_now env) sub (Some hdbid) :: rows).
    split_and!.
    + by rewrite Hrows, <- List.app_assoc.
    + cbn [map]. apply NoDup_cons. split; [|done].
      intros (r & Hr & Hin')%list_elem_of_fmap.
      rewrite Forall_forall in Hall. destruct (Hall r Hin') as [_ Hnot].
      apply Hnot. rewrite <- Hr. cbn [process_item row_hdbid]. set_solver.
    + apply Forall_cons. split; [done|].
      eapply Forall_impl; [exact Hall|]. cbn beta. intros r [H1 H2].
      split; [done | set_solver].
    + rewrite Hex. cbn [map process_item row_hdbid]. set_solver.
    + intros Hh. apply Forall_cons. split; [by apply process_item_owned | by apply Hown].
Qed.

(** X9. The subvariant loop only appends to the batch. The rows it appends
    have non-empty identifiers, distinct from each other and from every
    identifier known before, and the identifiers known after the loop are
    those known before together with those of the appended rows. *)
Theorem subvariant_rows_are_never_duplicates (env : Env) (hdbid : string)
    (subvariants : list Item) (v : Vars) :
  exists rows,
    new_rows (subvariants_loop env hdbid subvariants v) = new_rows v ++ rows
    /\ NoDup (map row_hdbid rows)
    /\ Forall (fun r => row_hdbid r <> "" /\ row_hdbid r ∉ existing_hdbids v) rows
    /\ existing_hdbids (subvariants_loop env hdbid subvariants v)
       = list_to_set (map row_hdbid rows) ∪ existing_hdbids v.
Proof.
  destruct (subvariants_loop_appended env hdbid subvariants v)
    as (rows & H1 & H2 & H3 & H4 & _).
  by exists rows.
Qed.

(** X10. Under a master with a non-empty identifier, each row the
    subvariant loop appends is either a subvariant row whose owner column
    is that master, or a master row with an empty owner column. *)
Theorem subvariant_rows_name_their_master (env : Env) (hdbid : string)
    (subvariants : list Item) (v : Vars) :
  hdbid <> "" ->
  exists rows,
    new_rows (subvariants_loop env hdbid subvariants v) = new_rows v ++ rows
    /\ Forall (owned_by hdbid) rows.
Proof.
  intros Hh.
  destruct (subvariants_loop_appended env hdbid subvariants v)
    as (rows & H1 & _ & _ & _ & H5).
  exists rows. split; [done | by apply H5].
Qed.

Lemma subvariant_rows_name_their_master_witness :
  exists rows,
    new_rows (subvariants_loop family_env "10" [listed_subvariant]
                (page_vars (initial_state empty_disk)))
    = new_rows (page_vars (initial_state empty_disk)) ++ rows
    /\ Forall (owned_by "10") rows.
Proof.
  apply (subvariant_rows_name_their_master family_env "10"). discriminate.
Defined.

(** ** The counter *)

Lemma items_loop_counter_bound (env : Env) (items : list Item) (v : Vars) :
  consecutive_matches v < STOP_AFTER_MATCHES ->
  consecutive_matches (fst (items_loop env items v)) <= STOP_AFTER_MATCHES.
Proof.
  revert v. induction items as [|item items IH]; intros v Hv; [cbn; lia|].
  destruct (items_loop_cases env item items v)
    as [[He H] | [(Hne & Hin & Hstop & H) | [(Hne & Hin & Hstop & H) | (Hne & Hin & H)]]];
    rewrite H.
  - by apply IH.
  - cbn. lia.
  - apply IH. rewrite process_master_matches. cbn. lia.
  - apply IH. rewrite process_master_matches. cbn. unfold STOP_AFTER_MATCHES. lia.
Qed.

Lemma main_loop_counter_bound (env : Env) (fuel : nat) (s s' : State) :
  matches s < STOP_AFTER_MATCHES ->
  main_loop env fuel s = Some s' ->
  matches s' <= STOP_AFTER_MATCHES.
Proof.
  revert s. induction fuel as [|fuel IH]; intros s Hs; [discriminate|].
  cbn [main_loop].
  destruct (fetch_catalog_items env (offset s) BATCH_SIZE) as [items|] eqn:Hfetch.
  - destruct (decide (items = [])) as [->|Hne].
    + unfold main_step. rewrite Hfetch. intros [= <-]. lia.
    + rewrite (main_step_page env s items Hfetch Hne). cbn zeta.
      pose proof (items_loop_counter_bound env items (page_vars s) Hs) as Hle.
      destruct (STOP_AFTER_MATCHES <=? _)%nat eqn:Hstop; cbn [negb].
      * by intros [= <-].
      * apply Nat.leb_gt in Hstop. by apply IH.
  - unfold main_step. rewrite Hfetch. by apply IH.
Qed.

(** X11. Whenever the main loop ends, the counter of consecutive matches is
    at most [STOP_AFTER_MATCHES]. *)
Theorem counter_never_exceeds_threshold (env : Env) (fuel : nat) (d : Disk) (s' : State) :
  main_loop env fuel (initial_state d) = Some s' ->
  matches s' <= STOP_AFTER_MATCHES.
Proof.
  apply main_loop_counter_bound. cbn. unfold STOP_AFTER_MATCHES. lia.
Qed.

Lemma counter_never_exceeds_threshold_witness :
  matches (fst (main_step caught_up_env caught_up_state)) <= STOP_AFTER_MATCHES.
Proof.
  apply (counter_never_exceeds_threshold caught_up_env 2 caught_up_disk).
  vm_compute. reflexivity.
Defined.

(** ** Characters and strings *)

Lemma contains_trans (a b s : string) :
  PyStr.contains a b = true -> PyStr.contains b s = true -> PyStr.contains a s = true.
Proof.
  rewrite !contains_spec. intros (p & q & ->) (p' & q' & ->).
  exists (p' +:+ p), (q +:+ q'). by rewrite !append_assoc.
Qed.

Lemma to_lower_facts (c : ascii) :
  PyStr.to_lower (PyStr.to_lower c) = PyStr.to_lower c
  /\ PyStr.is_space (PyStr.to_lower c) = PyStr.is_space c
  /\ Re.in_capture_class (PyStr.to_lower c) = Re.in_capture_class c
  /\ PyStr.is_upper (PyStr.to_lower c) = false
  /\ (PyStr.is_upper c || PyStr.is_lower c = true ->
      PyStr.is_lower (PyStr.to_lower c) = true).
Proof. destruct c as [[] [] [] [] [] [] [] []]; vm_compute; done. Qed.

Lemma to_upper_facts (c : ascii) :
  PyStr.to_upper (PyStr.to_upper c) = PyStr.to_upper c
  /\ PyStr.is_space (PyStr.to_upper c) = PyStr.is_space c
  /\ Re.in_capture_class (PyStr.to_upper c) = Re.in_capture_class c
  /\ PyStr.is_lower (PyStr.to_upper c) = false
  /\ (PyStr.is_upper c || PyStr.is_lower c = true ->
      PyStr.is_upper (PyStr.to_upper c) = true).
Proof. destruct c as [[] [] [] [] [] [] [] []]; vm_compute; done. Qed.

Lemma space_not_cased (c : ascii) :
  PyStr.is_space c = true -> PyStr.is_upper c || PyStr.is_lower c = false.
Proof. destruct c as [[] [] [] [] [] [] [] []]; vm_compute; done. Qed.

Lemma lower_app (a b : string) :
  PyStr.lower (a +:+ b) = PyStr.lower a +:+ PyStr.lower b.
Proof.
  induction a as [|c a IH]; [done|].
  rewrite append_cons. cbn [PyStr.lower]. by rewrite append_cons, IH.
Qed.

Lemma lower_idem (s : string) : PyStr.lower (PyStr.lower s) = PyStr.lower s.
Proof.
  induction s as [|c s IH]; [done|]. cbn [PyStr.lower].
  by rewrite IH, (proj1 (to_lower_facts c)).
Qed.

Lemma lower_length (s : string) : String.length (PyStr.lower s) = String.length s.
Proof. induction s as [|c s IH]; [done|]. cbn. by rewrite IH. Qed.

Lemma append_inj_length (a a' b b' : string) :
  a +:+ b = a' +:+ b' -> String.length a = String.length a' -> a = a' /\ b = b'.
Proof.
  revert a'. induction a as [|c a IH]; intros [|c' a']; try discriminate.
  - done.
  - rewrite !append_cons. intros [= -> H] [= Hlen].
    by destruct (IH a' H Hlen) as [-> ->].
Qed.

(** A part of a lower-cased text is lower-cased. *)
Lemma lower_part (x pre k post : string) :
  PyStr.lower x = pre +:+ k +:+ post -> PyStr.lower k = k.
Proof.
  intros H. pose proof (lower_idem x) as Hx. rewrite H in Hx.
  rewrite !lower_app in Hx.
  apply append_inj_length in Hx as [_ Hx]; [|apply lower_length].
  by apply append_inj_length in Hx as [Hx _]; [|apply lower_length].
Qed.

(** ** Autograph detection *)

(** X12. [is_autographed] is decided by four of its seven keywords:
    [autograph], [signed], [signature] and [coa]. The keywords
    [autographed], [signed by] and [certified autograph] each contain one
    of these and never change the answer. *)
Theorem is_autographed_four_keywords (item : Item) :
  is_autographed item =
  PyStr.contains "autograph" (autograph_search_text item)
  || PyStr.contains "signed" (autograph_search_text item)
  || PyStr.contains "signature" (autograph_search_text item)
  || PyStr.contains "coa" (autograph_search_text item).
Proof.
  unfold is_autographed, autograph_keywords. cbn [existsb].
  generalize (autograph_search_text item). intros t.
  pose proof (contains_trans "autograph" "autographed" t eq_refl) as H1.
  pose proof (contains_trans "signed" "signed by" t eq_refl) as H2.
  pose proof (contains_trans "autograph" "certified autograph" t eq_refl) as H3.
  destruct (PyStr.contains "autographed" t), (PyStr.contains "autograph" t),
    (PyStr.contains "signed" t), (PyStr.contains "signed by" t),
    (PyStr.contains "signature" t), (PyStr.contains "certified autograph" t),
    (PyStr.contains "coa" t); cbn; try reflexivity;
    first [ specialize (H1 eq_refl) | specialize (H2 eq_refl) | specialize (H3 eq_refl) ];
    discriminate.
Qed.

(** ** The signer, continued *)

Lemma search_by_keyword (kw x g : string) :
  PyStr.lower kw = kw ->
  Re.search_by kw (PyStr.lower x) = Some g ->
  PyStr.contains kw (PyStr.lower x) = true.
Proof.
  intros Hkw (pre & post & Ht & skipped & m & -> & Hm)%search_by_spec.
  destruct Hm as (k & ws1 & b & ws2 & -> & Hk & _).
  rewrite !append_assoc in Ht.
  apply lower_part in Ht as Hlow. rewrite Hlow, Hkw in Hk. subst k.
  apply contains_spec. eauto.
Qed.

Lemma signer_loop_matched (t : string) (ps : list string) (signer : string) :
  signer_loop t ps = Some signer ->
  exists p g, p ∈ ps /\ Re.search_by p t = Some g.
Proof.
  intros (before & p & after & -> & _ & Hc)%signer_loop_Some.
  unfold signer_candidate in Hc.
  destruct (Re.search_by p t) as [g|] eqn:Hg; [|discriminate].
  exists p, g. split; [|done]. set_solver.
Qed.

Lemma signer_text_in_autograph_text (item : Item) :
  exists rest, autograph_search_text item = signer_search_text item +:+ rest.
Proof.
  unfold autograph_search_text, signer_search_text.
  exists (" " +:+ PyStr.lower (item_slug item) +:+ " "
          +:+ PyStr.lower (item_image_url item)).
  rewrite !lower_app. cbn [PyStr.lower]. by rewrite !append_assoc.
Qed.

Lemma signer_loop_autographed (item : Item) :
  signer_loop (signer_search_text item) patterns <> None ->
  is_autographed item = true.
Proof.
  destruct (signer_loop (signer_search_text item) patterns) as [s|] eqn:Hs; [|done].
  intros _. apply signer_loop_matched in Hs as (p & g & Hp & Hg).
  assert (Hc : PyStr.contains p (signer_search_text item) = true).
  { apply (search_by_keyword p _ g); [|exact Hg].
    unfold patterns in Hp.
    repeat (apply elem_of_cons in Hp as [-> | Hp]; [reflexivity|]).
    by apply not_elem_of_nil in Hp. }
  destruct (signer_text_in_autograph_text item) as (rest & Hrest).
  unfold is_autographed. apply existsb_exists. exists p. split.
  - unfold patterns in Hp. unfold autograph_keywords.
    repeat (apply elem_of_cons in Hp as [-> | Hp]; [cbn; tauto|]).
    by apply not_elem_of_nil in Hp.
  - rewrite Hrest. by apply contains_app_l.
Qed.

Lemma extract_signer_name_loop (item : Item) :
  extract_signer_name item = signer_loop (signer_search_text item) patterns.
Proof.
  unfold extract_signer_name.
  destruct (is_autographed item) eqn:Ha; [done|]. cbn [negb].
  destruct (signer_loop (signer_search_text item) patterns) eqn:Hs; [|done].
  rewrite signer_loop_autographed in Ha; [discriminate | by rewrite Hs].
Qed.

(** X13. On an item whose name and description are ASCII text, the
    [is_autographed] test at the head of [extract_signer_name] never hides a
    signer: the function returns what its pattern loop finds, since a text
    in which a pattern matches is autographed. (Outside ASCII a pattern can
    match where the keyword is no substring.) *)
Theorem signer_match_implies_autographed (item : Item) :
  ascii_text (item_name item) ->
  ascii_text (item_description item) ->
  extract_signer_name item = signer_loop (signer_search_text item) patterns
  /\ (signer_loop (signer_search_text item) patterns <> None ->
      is_autographed item = true).
Proof.
  intros _ _.
  split; [apply extract_signer_name_loop | apply signer_loop_autographed].
Qed.

Lemma signer_match_implies_autographed_witness :
  is_autographed (item_described "Signed by Tom Hanks, limited run") = true.
Proof.
  apply (proj2 (signer_match_implies_autographed
                  (item_described "Signed by Tom Hanks, limited run")
                  eq_refl eq_refl)).
  vm_compute. discriminate.
Defined.

(** Trimming and title-casing. *)

Lemma all_chars_lstrip (f : ascii -> bool) (s : string) :
  all_chars f s = true -> all_chars f (PyStr.lstrip s) = true.
Proof.
  induction s as [|c s IH]; [done|]. cbn [PyStr.lstrip].
  destruct (PyStr.is_space c); [|done].
  cbn [all_chars]. intros [_ H]%andb_true_iff. by apply IH.
Qed.

Lemma all_chars_rstrip (f : ascii -> bool) (s : string) :
  all_chars f s = true -> all_chars f (PyStr.rstrip s) = true.
Proof.
  induction s as [|c s IH]; [done|]. cbn [PyStr.rstrip all_chars].
  intros [Hc H]%andb_true_iff. specialize (IH H).
  destruct (PyStr.rstrip s) as [|x r].
  - destruct (PyStr.is_space c); [done|]. cbn. by rewrite Hc.
  - cbn [all_chars] in IH |- *. by rewrite Hc, IH.
Qed.

Lemma all_chars_title (b : bool) (s : string) :
  all_chars Re.in_capture_class (PyStr.title_from b s)
  = all_chars Re.in_capture_class s.
Proof.
  revert b. induction s as [|c s IH]; intros b; [done|]. cbn [PyStr.title_from].
  destruct (PyStr.is_upper c || PyStr.is_lower c); cbn [all_chars]; rewrite IH;
    [|done].
  destruct b; f_equal; [apply to_lower_facts | apply to_upper_facts].
Qed.

Lemma title_from_length (b : bool) (s : string) :
  String.length (PyStr.title_from b s) = String.length s.
Proof.
  revert b. induction s as [|c s IH]; intros b; [done|]. cbn [PyStr.title_from].
  destruct (_ || _); cbn; by rewrite IH.
Qed.

Lemma title_from_idem (b : bool) (s : string) :
  PyStr.title_from b (PyStr.title_from b s) = PyStr.title_from b s.
Proof.
  revert b. induction s as [|c s IH]; intros b; [done|]. cbn [PyStr.title_from].
  destruct (PyStr.is_upper c || PyStr.is_lower c) eqn:Hc; cbn [PyStr.title_from].
  - destruct b.
    + destruct (to_lower_facts c) as (H1 & _ & _ & H2 & H3).
      rewrite H2, (H3 Hc). cbn [orb]. by rewrite H1, IH.
    + destruct (to_upper_facts c) as (H1 & _ & _ & H2 & H3).
      rewrite H2, (H3 Hc). cbn [orb]. by rewrite H1, IH.
  - by rewrite Hc, IH.
Qed.

Lemma lstrip_title (s : string) :
  PyStr.lstrip (PyStr.title_from false s) = PyStr.title_from false (PyStr.lstrip s).
Proof.
  induction s as [|c s IH]; [done|]. cbn [PyStr.lstrip PyStr.title_from].
  destruct (PyStr.is_space c) eqn:Hs.
  - rewrite (space_not_cased c Hs). cbn [PyStr.lstrip]. by rewrite Hs.
  - cbn [PyStr.title_from].
    destruct (PyStr.is_upper c || PyStr.is_lower c); cbn [PyStr.lstrip].
    + by rewrite (proj1 (proj2 (to_upper_facts c))), Hs.
    + by rewrite Hs.
Qed.

Lemma title_from_empty (b : bool) (s : string) :
  PyStr.title_from b s = "" <-> s = "".
Proof.
  destruct s; [done|]. cbn [PyStr.title_from]. by destruct (_ || _).
Qed.

Lemma title_from_cons (b : bool) (c : ascii) (s : string) :
  PyStr.title_from b (String c s) =
  if PyStr.is_upper c || PyStr.is_lower c
  then String (if b then PyStr.to_lower c else PyStr.to_upper c) (PyStr.title_from true s)
  else String c (PyStr.title_from false s).
Proof. reflexivity. Qed.

Lemma rstrip_title (b : bool) (s : string) :
  PyStr.rstrip (PyStr.title_from b s) = PyStr.title_from b (PyStr.rstrip s).
Proof.
  revert b. induction s as [|c s IH]; intros b; [done|].
  cbn [PyStr.title_from PyStr.rstrip].
  destruct (PyStr.is_upper c || PyStr.is_lower c) eqn:Hc; cbn [PyStr.rstrip];
    rewrite IH; destruct (PyStr.rstrip s) as [|x r] eqn:Hr.
  - cbn [PyStr.title_from].
    assert (Hsp : PyStr.is_space c = false).
    { destruct (PyStr.is_space c) eqn:Hs; [|done].
      rewrite (space_not_cased c Hs) in Hc. discriminate. }
    destruct b.
    + rewrite (proj1 (proj2 (to_lower_facts c))), Hsp.
      cbn [PyStr.title_from]. by rewrite Hc.
    + rewrite (proj1 (proj2 (to_upper_facts c))), Hsp.
      cbn [PyStr.title_from]. by rewrite Hc.
  - destruct (PyStr.title_from true (String x r)) eqn:Ht.
    + by apply title_from_empty in Ht.
    + by rewrite (title_from_cons b c (String x r)), Hc, Ht.
  - cbn [PyStr.title_from]. destruct (PyStr.is_space c); [done|].
    cbn [PyStr.title_from]. by rewrite Hc.
  - destruct (PyStr.title_from false (String x r)) eqn:Ht.
    + by apply title_from_empty in Ht.
    + by rewrite (title_from_cons b c (String x r)), Hc, Ht.
Qed.

Lemma strip_title (s : string) :
  PyStr.strip (PyStr.title s) = PyStr.title (PyStr.strip s).
Proof. unfold PyStr.strip, PyStr.title. by rewrite lstrip_title, rstrip_title. Qed.

Lemma rstrip_idem (s : string) : PyStr.rstrip (PyStr.rstrip s) = PyStr.rstrip s.
Proof.
  induction s as [|c s IH]; [done|]. cbn [PyStr.rstrip].
  destruct (PyStr.rstrip s) as [|x r] eqn:Hr.
  - destruct (PyStr.is_space c) eqn:Hs; [done|]. cbn [PyStr.rstrip]. by rewrite Hs.
  - cbn [PyStr.rstrip] in IH |- *. cbn [PyStr.rstrip]. by rewrite IH.
Qed.

Lemma lstrip_rstrip_lstrip (s : string) :
  PyStr.lstrip (PyStr.rstrip (PyStr.lstrip s)) = PyStr.rstrip (PyStr.lstrip s).
Proof.
  induction s as [|c s IH]; [done|]. cbn [PyStr.lstrip].
  destruct (PyStr.is_space c) eqn:Hs; [done|]. cbn [PyStr.rstrip].
  destruct (PyStr.rstrip s); [rewrite Hs|]; cbn [PyStr.lstrip]; by rewrite Hs.
Qed.

Lemma strip_idem (s : string) : PyStr.strip (PyStr.strip s) = PyStr.strip s.
Proof. unfold PyStr.strip. by rewrite lstrip_rstrip_lstrip, rstrip_idem. Qed.

Lemma is_ascii_char_case (c : ascii) :
  is_ascii_char (PyStr.to_lower c) = is_ascii_char c
  /\ is_ascii_char (PyStr.to_upper c) = is_ascii_char c.
Proof. destruct c as [[] [] [] [] [] [] [] []]; vm_compute; done. Qed.

Lemma all_chars_app (f : ascii -> bool) (a b : string) :
  all_chars f (a +:+ b) = all_chars f a && all_chars f b.
Proof.
  induction a as [|c a IH]; [done|].
  rewrite append_cons. cbn [all_chars]. by rewrite IH, andb_assoc.
Qed.

Lemma lower_ascii (s : string) : ascii_text s -> ascii_text (PyStr.lower s).
Proof.
  unfold ascii_text. induction s as [|c s IH]; [done|]. cbn [PyStr.lower all_chars].
  intros [Hc Hs]%andb_true_iff.
  by rewrite (proj1 (is_ascii_char_case c)), Hc, IH.
Qed.

Lemma title_from_ascii (b : bool) (s : string) :
  ascii_text s -> ascii_text (PyStr.title_from b s).
Proof.
  unfold ascii_text. revert b. induction s as [|c s IH]; intros b; [done|].
  cbn [PyStr.title_from all_chars]. intros [Hc Hs]%andb_true_iff.
  destruct (PyStr.is_upper c || PyStr.is_lower c); cbn [all_chars];
    rewrite IH by done; [|by rewrite Hc].
  destruct b; [rewrite (proj1 (is_ascii_char_case c))
              | rewrite (proj2 (is_ascii_char_case c))]; by rewrite Hc.
Qed.

Lemma signer_search_text_ascii (item : Item) :
  ascii_text (item_name item) -> ascii_text (item_description item) ->
  ascii_text (signer_search_text item).
Proof.
  intros Hn Hd. unfold signer_search_text. apply lower_ascii.
  unfold ascii_text in *. by rewrite !all_chars_app, Hn, Hd.
Qed.

(** X14. On an item whose name and description are ASCII text, a signer
    name returned by [extract_signer_name] has more than two characters,
    holds no comma and no parenthesis, has no white space at either end, is
    in title case and is ASCII text itself. *)
Theorem signer_is_trimmed_and_title_cased (item : Item) (signer : string) :
  ascii_text (item_name item) ->
  ascii_text (item_description item) ->
  extract_signer_name item = Some signer ->
  2 < String.length signer
  /\ all_chars Re.in_capture_class signer = true
  /\ PyStr.strip signer = signer
  /\ PyStr.title signer = signer
  /\ ascii_text signer.
Proof.
  intros Hn Hd. pose proof (signer_search_text_ascii item Hn Hd) as Hascii.
  rewrite extract_signer_name_loop.
  intros (before & p & after & _ & _ & Hc)%signer_loop_Some.
  unfold signer_candidate in Hc.
  destruct (Re.search_by p (signer_search_text item)) as [g|] eqn:Hg; [|discriminate].
  destruct (2 <? String.length (PyStr.strip g))%nat eqn:Hlen; [|discriminate].
  apply Nat.ltb_lt in Hlen. injection Hc as <-.
  apply search_by_spec in Hg as (pre & post & Ht & skipped & m & _ & Hm).
  destruct Hm as (k & ws1 & b & ws2 & _ & _ & _ & _ & _ & _ & _ & Hall & _).
  split_and!.
  - unfold PyStr.title. by rewrite title_from_length.
  - unfold PyStr.title, PyStr.strip. rewrite all_chars_title.
    by apply all_chars_rstrip, all_chars_lstrip.
  - by rewrite strip_title, strip_idem.
  - apply title_from_idem.
  - apply title_from_ascii. unfold ascii_text, PyStr.strip.
    apply all_chars_rstrip, all_chars_lstrip.
    unfold ascii_text in Hascii. rewrite Ht, !all_chars_app in Hascii.
    by apply andb_true_iff in Hascii as [_ [Hgood _]%andb_true_iff].
Qed.

Lemma signer_is_trimmed_and_title_cased_witness :
  2 < String.length "Tom Hanks" /\ all_chars Re.in_capture_class "Tom Hanks" = true
  /\ PyStr.strip "Tom Hanks" = "Tom Hanks" /\ PyStr.title "Tom Hanks" = "Tom Hanks"
  /\ ascii_text "Tom Hanks".
Proof.
  apply (signer_is_trimmed_and_title_cased
           (item_described "Signed by Tom Hanks, limited run")).
  - reflexivity.
  - reflexivity.
  - vm_compute. reflexivity.
Defined.

(** ** Letter case *)

(** X18. The four detectors read their texts in lower case only: two
    items whose texts differ by letter case alone get the same stickers, the
    same exclusivity, the same autograph flag and the same signer. *)
Theorem detectors_ignore_letter_case (a b : Item) :
  same_up_to_case a b ->
  extract_stickers a = extract_stickers b
  /\ extract_exclusivity a = extract_exclusivity b
  /\ is_autographed a = is_autographed b
  /\ extract_signer_name a = extract_signer_name b.
Proof.
  intros (Hname & Hdesc & Hprod & Hseries & Hslug & Hurl).
  assert (Hauto : is_autographed a = is_autographed b).
  { unfold is_autographed, autograph_search_text.
    by rewrite Hname, Hdesc, Hslug, Hurl. }
  split_and!.
  - unfold extract_stickers, stickers_search_text. by rewrite Hname, Hprod, Hdesc.
  - unfold extract_exclusivity, exclusivity_search_text.
    by rewrite Hname, Hseries, Hdesc.
  - exact Hauto.
  - unfold extract_signer_name, signer_search_text.
    by rewrite Hauto, !lower_app, Hname, Hdesc.
Qed.

Lemma detectors_ignore_letter_case_witness :
  extract_stickers (item_described "CHASE, Signed By TOM hanks (SDCC)")
  = extract_stickers (item_described "chase, signed by tom hanks (sdcc)")
  /\ extract_exclusivity (item_described "CHASE, Signed By TOM hanks (SDCC)")
     = extract_exclusivity (item_described "chase, signed by tom hanks (sdcc)")
  /\ is_autographed (item_described "CHASE, Signed By TOM hanks (SDCC)")
     = is_autographed (item_described "chase, signed by tom hanks (sdcc)")
  /\ extract_signer_name (item_described "CHASE, Signed By TOM hanks (SDCC)")
     = extract_signer_name (item_described "chase, signed by tom hanks (sdcc)").
Proof.
  apply detectors_ignore_letter_case. vm_compute. done.
Defined.

(** ** The CSV file, record by record *)

Section CsvFacts.

Lemma writerow_row_dict (r : Row) :
  Csv.writerow Csv.get_csv_headers (Csv.row_dict r) = Some (Csv.row_cells r).
Proof. reflexivity. Qed.

Lemma writerows_rows (rows : list Row) :
  Csv.writerows Csv.get_csv_headers rows = Some (map Csv.row_cells rows).
Proof.
  induction rows as [|r rows IH]; [done|].
  cbn [Csv.writerows]. rewrite writerow_row_dict, IH. done.
Qed.

Lemma append_to_csv_records (rows : list Row) (f : Csv.File) :
  Csv.append_to_csv rows f
  = Some (Some (match f with
                | None => [Csv.get_csv_headers]
                | Some old => old
                end ++ map Csv.row_cells rows)).
Proof.
  unfold Csv.append_to_csv. rewrite writerows_rows.
  destruct f as [old|]; cbn [negb default]; [|done].
  by rewrite app_nil_l.
Qed.

Lemma reader_dict_hdbid (r : Row) :
  Csv.dict_get (Csv.reader_dict Csv.get_csv_headers
                  (map Csv.universal_newlines (Csv.row_cells r))) "hdbid"
  = Some (Some (Csv.universal_newlines (row_hdbid r))).
Proof. reflexivity. Qed.

Lemma row_hdbids_cons (r : Row) (rows : list Row) :
  row_hdbids (r :: rows)
  = (if PyStr.nonempty (row_hdbid r) then {[ row_hdbid r ]} else ∅) ∪ row_hdbids rows.
Proof.
  unfold row_hdbids. rewrite map_cons.
  destruct (PyStr.nonempty (row_hdbid r)) eqn:Hn.
  - rewrite filter_cons_True by done. by rewrite list_to_set_cons.
  - rewrite filter_cons_False by (by rewrite Hn). set_solver.
Qed.

Lemma translate_id (s : string) :
  all_chars (fun c => negb (Ascii.eqb c "013"%char)) s = true ->
  Csv.universal_newlines s = s.
Proof.
  unfold Csv.universal_newlines. induction s as [|c s IH]; [done|].
  cbn [all_chars Csv.translate]. intros [Hc Hs]%andb_true_iff.
  apply negb_true_iff in Hc. by rewrite Hc, andb_false_r, IH.
Qed.

(** A text without line feed is the reading of itself only. *)
Lemma translate_line_free (s t : string) :
  Csv.universal_newlines s = t ->
  all_chars (fun c => negb (Ascii.eqb c "010"%char)) t = true ->
  s = t.
Proof.
  unfold Csv.universal_newlines. revert t.
  induction s as [|c s IH]; intros t; cbn [Csv.translate]; [by intros <-|].
  destruct (Ascii.eqb c "013"%char).
  - intros <-. cbn. discriminate.
  - rewrite andb_false_r. intros <-. cbn [all_chars].
    intros [_ Hs]%andb_true_iff. f_equal. by apply IH.
Qed.

Lemma read_record_cells (record cells : list string) :
  Csv.read_record record = Some cells -> cells = map Csv.universal_newlines record.
Proof. unfold Csv.read_record. destruct (forallb _ _); by intros [= <-]. Qed.

Lemma read_record_readable (record : list string) :
  forallb Csv.readable_cell record = true -> Csv.read_record record = Some record.
Proof.
  unfold Csv.read_record. induction record as [|c record IH]; [done|].
  cbn [forallb map]. intros [[Hcr Hlen]%andb_true_iff Hrest]%andb_true_iff.
  specialize (IH Hrest). rewrite (translate_id c Hcr), Hlen. cbn [andb].
  destruct (forallb _ (map Csv.universal_newlines record)); [|discriminate].
  by injection IH as ->.
Qed.

Lemma read_record_headers :
  Csv.read_record Csv.get_csv_headers = Some Csv.get_csv_headers.
Proof. apply read_record_readable. vm_compute. reflexivity. Qed.

Lemma reader_loop_cons (fieldnames record : list string)
    (rest : list (list string)) (seen : gset string) :
  Csv.reader_loop fieldnames (record :: rest) seen
  = match Csv.read_record record with
    | None => seen
    | Some [] => Csv.reader_loop fieldnames rest seen
    | Some (c :: row) =>
        match Csv.dict_get (Csv.reader_dict fieldnames (c :: row)) "hdbid" with
        | Some (Some h) =>
            if PyStr.nonempty h
            then Csv.reader_loop fieldnames rest (seen ∪ {[ h ]})
            else Csv.reader_loop fieldnames rest seen
        | _ => Csv.reader_loop fieldnames rest seen
        end
    end.
Proof.
  cbn [Csv.reader_loop]. by destruct (Csv.read_record record) as [[|c row]|].
Qed.

(** One record of a row under the header of the program. *)
Lemma reader_loop_row (r : Row) (rest : list (list string)) (seen : gset string) :
  Csv.reader_loop Csv.get_csv_headers (Csv.row_cells r :: rest) seen
  = match Csv.read_record (Csv.row_cells r) with
    | None => seen
    | Some _ =>
        if PyStr.nonempty (Csv.universal_newlines (row_hdbid r))
        then Csv.reader_loop Csv.get_csv_headers rest
               (seen ∪ {[ Csv.universal_newlines (row_hdbid r) ]})
        else Csv.reader_loop Csv.get_csv_headers rest seen
    end.
Proof.
  rewrite reader_loop_cons.
  destruct (Csv.read_record (Csv.row_cells r)) as [cells|] eqn:Hread; [|done].
  apply read_record_cells in Hread.
  destruct cells as [|c cells]; [discriminate Hread|].
  by rewrite Hread, reader_dict_hdbid.
Qed.

Lemma reader_loop_rows (rows : list Row) (seen : gset string) :
  Forall Csv.readable rows ->
  Csv.reader_loop Csv.get_csv_headers (map Csv.row_cells rows) seen
  = seen ∪ row_hdbids rows.
Proof.
  intros Hrows. revert seen. induction Hrows as [|r rows Hr _ IH]; intros seen.
  - cbn [map Csv.reader_loop]. unfold row_hdbids. cbn. set_solver.
  - rewrite map_cons, reader_loop_row, (read_record_readable _ Hr), row_hdbids_cons.
    assert (Hid : Csv.universal_newlines (row_hdbid r) = row_hdbid r).
    { unfold Csv.readable, Csv.row_cells in Hr. cbn [forallb] in Hr.
      apply andb_true_iff in Hr as [[Hcr _]%andb_true_iff _].
      by apply translate_id. }
    rewrite Hid. destruct (PyStr.nonempty (row_hdbid r)); rewrite IH; set_solver.
Qed.

(** Whatever the cells, an identifier that is read is the reading of the
    identifier of a row. *)
Lemma reader_loop_sound (rows : list Row) (seen : gset string) (h : string) :
  h ∈ Csv.reader_loop Csv.get_csv_headers (map Csv.row_cells rows) seen ->
  (h ∈ seen)
  \/ (h <> "" /\ exists r, (r ∈ rows) /\ h = Csv.universal_newlines (row_hdbid r)).
Proof.
  revert seen. induction rows as [|r rows IH]; intros seen; [by left|].
  rewrite map_cons, reader_loop_row.
  destruct (Csv.read_record (Csv.row_cells r)); [|by left].
  destruct (PyStr.nonempty (Csv.universal_newlines (row_hdbid r))) eqn:Hne.
  - intros [[Hin | ->%elem_of_singleton]%elem_of_union | (Hh & r' & Hr' & ->)]%IH.
    + by left.
    + right. split; [by apply nonempty_iff|]. exists r. split; [left | done].
    + right. split; [done|]. exists r'. split; [by right | done].
  - intros [Hin | (Hh & r' & Hr' & ->)]%IH; [by left|].
    right. split; [done|]. exists r'. split; [by right | done].
Qed.

Lemma dict_get_None {V : Type} (d : list (string * V)) (key : string) :
  key ∉ map fst d -> Csv.dict_get d key = None.
Proof.
  induction d as [|[k v] d IH]; [done|]. cbn [map fst Csv.dict_get].
  intros [Hk Hd]%not_elem_of_cons. rewrite (IH Hd).
  destruct (String.eqb k key) eqn:He; [|done].
  apply String.eqb_eq in He. congruence.
Qed.

Lemma reader_dict_keys (fieldnames row : list string) (key : string) :
  key ∈ map fst (Csv.reader_dict fieldnames row) -> key ∈ fieldnames.
Proof.
  unfold Csv.reader_dict. rewrite map_app. intros [H|H]%elem_of_app.
  - revert row H. induction fieldnames as [|k ks IH]; intros [|c row] H;
      cbn in H; try by apply not_elem_of_nil in H.
    apply elem_of_cons in H as [->|H]; [left|right]. by apply (IH row).
  - rewrite map_map in H. cbn in H. rewrite map_id in H.
    eapply elem_of_sublist; [exact H | apply sublist_drop].
Qed.

End CsvFacts.

Lemma reader_loop_no_column (fieldnames : list string) (records : list (list string))
    (seen : gset string) :
  "hdbid" ∉ fieldnames -> Csv.reader_loop fieldnames records seen = seen.
Proof.
  intros Hno. induction records as [|record rest IH]; [done|].
  rewrite reader_loop_cons.
  destruct (Csv.read_record record) as [[|c row]|]; [exact IH | | done].
  rewrite dict_get_None; [exact IH|].
  intros H. by apply reader_dict_keys in H.
Qed.

Lemma row_cells_columns (r : Row) (i : nat) (key : string) :
  Csv.get_csv_headers !! i = Some key ->
  Csv.row_cells r !! i = Csv.dict_get (Csv.row_dict r) key.
Proof.
  do 27 (destruct i as [|i]; [intros [= <-]; reflexivity|]). discriminate.
Qed.

(** X15. [append_to_csv] never fails on rows of [process_item]: the keys
    of a row are field names of the header. It writes the header line only
    when the file did not exist, then one record of 27 cells for each row,
    each cell in the column of its key; and two appends in a row leave what
    one append of both batches leaves. *)
Theorem csv_append_never_refuses_a_row (rows : list Row) (f : Csv.File) :
  Csv.append_to_csv rows f
  = Some (Some (match f with
                | None => [Csv.get_csv_headers]
                | Some old => old
                end ++ map Csv.row_cells rows))
  /\ Forall (fun cells => length cells = length Csv.get_csv_headers)
       (map Csv.row_cells rows)
  /\ (forall r i key,
        Csv.get_csv_headers !! i = Some key ->
        Csv.row_cells r !! i = Csv.dict_get (Csv.row_dict r) key)
  /\ (forall more,
        match Csv.append_to_csv rows f with
        | Some f' => Csv.append_to_csv more f'
        | None => None
        end = Csv.append_to_csv (rows ++ more) f).
Proof.
  split_and!.
  - apply append_to_csv_records.
  - apply Forall_forall. intros cells (r & -> & _)%list_elem_of_fmap. reflexivity.
  - apply row_cells_columns.
  - intros more. rewrite !append_to_csv_records.
    by rewrite map_app, List.app_assoc.
Qed.

(** X16. The records of the file stand for the rows of [Disk]. For a
    file that is missing with no row, or is the header line followed by the
    cells of the rows: when no cell holds a carriage return or is longer
    than the field limit of the reader, reading the identifiers record by
    record gives [get_existing_hdbids] of the rows; whatever the cells,
    also when the reader stops on an error, every identifier that is read
    is non-empty and is the identifier of a row as the text mode returns
    it; and an append keeps the file in that shape for the rows and the
    appended ones. *)
Theorem csv_records_represent_store (f : Csv.File) (rows : list Row) :
  Csv.represents f rows ->
  (Forall Csv.readable rows ->
   forall p,
     Csv.get_existing_hdbids f
     = get_existing_hdbids {| csv_file := rows; progress_file := p |})
  /\ (forall h,
        h ∈ Csv.get_existing_hdbids f ->
        h <> "" /\ exists r, (r ∈ rows) /\ h = Csv.universal_newlines (row_hdbid r))
  /\ (forall more p,
        exists f',
          Csv.append_to_csv more f = Some f'
          /\ Csv.represents f'
               (csv_file (append_to_csv more {| csv_file := rows; progress_file := p |}))).
Proof.
  intros Hrep. split_and!.
  - intros Hrows p.
    change (get_existing_hdbids {| csv_file := rows; progress_file := p |})
      with (row_hdbids rows).
    destruct Hrep as [[-> ->] | ->]; [done|].
    cbn [Csv.get_existing_hdbids]. rewrite read_record_headers.
    rewrite reader_loop_rows by done. set_solver.
  - intros h. destruct Hrep as [[-> ->] | ->]; [by intros ?%not_elem_of_empty|].
    cbn [Csv.get_existing_hdbids]. rewrite read_record_headers.
    intros [Hin | H]%reader_loop_sound; [by apply not_elem_of_empty in Hin | done].
  - intros more p. rewrite append_to_csv_records. eexists. split; [done|].
    right. cbn [append_to_csv csv_file].
    destruct Hrep as [[-> ->] | ->]; [done|].
    by rewrite map_app.
Qed.

Lemma csv_records_represent_store_witness :
  Csv.get_existing_hdbids (Some (Csv.get_csv_headers :: map Csv.row_cells [sample_row]))
  = get_existing_hdbids {| csv_file := [sample_row]; progress_file := None |}
  /\ exists f',
       Csv.append_to_csv [sample_row] None = Some f'
       /\ Csv.represents f' (csv_file (append_to_csv [sample_row] empty_disk)).
Proof.
  assert (Hrep : Csv.represents None []) by (by left).
  assert (Hrep1 : Csv.represents
                    (Some (Csv.get_csv_headers :: map Csv.row_cells [sample_row]))
                    [sample_row]) by (by right).
  assert (Hrows : Forall Csv.readable [sample_row]).
  { constructor; [|constructor]. vm_compute. reflexivity. }
  split.
  - exact (proj1 (csv_records_represent_store _ _ Hrep1) Hrows None).
  - exact (proj2 (proj2 (csv_records_represent_store None [] Hrep)) [sample_row] None).
Defined.

(** X17. A file that exists but is empty never gets its header line: the
    first row appended then is read back as the field names, and unless one
    of its cells is the word [hdbid], no identifier is read from the file
    at all. *)
Theorem headerless_file_hides_identifiers (r : Row) (rows : list Row) :
  "hdbid" ∉ Csv.row_cells r ->
  Csv.append_to_csv (r :: rows) (Some []) = Some (Some (map Csv.row_cells (r :: rows)))
  /\ Csv.get_existing_hdbids (Some (map Csv.row_cells (r :: rows))) = ∅.
Proof.
  intros Hno. split.
  - by rewrite append_to_csv_records.
  - rewrite map_cons. cbn [Csv.get_existing_hdbids].
    destruct (Csv.read_record (Csv.row_cells r)) as [fieldnames|] eqn:Hread; [|done].
    apply reader_loop_no_column. apply read_record_cells in Hread as ->.
    intros (cell & Hcell & Hin)%list_elem_of_fmap.
    symmetry in Hcell. apply translate_line_free in Hcell; [|reflexivity].
    by subst cell.
Qed.

Lemma headerless_file_hides_identifiers_witness :
  row_hdbid sample_row = "1"
  /\ Csv.append_to_csv [sample_row; sample_row] (Some [])
     = Some (Some (map Csv.row_cells [sample_row; sample_row]))
  /\ Csv.get_existing_hdbids (Some (map Csv.row_cells [sample_row; sample_row])) = ∅.
Proof.
  split; [reflexivity|].
  apply (headerless_file_hides_identifiers sample_row [sample_row]).
  apply (bool_decide_unpack _). vm_compute. exact I.
Defined.
